(** * Timeline compositor of newsflow's ProductionMonitor (renderVideoBlob)

    Shallow embedding of [src/components/ProductionMonitor.tsx]:
    the timeline construction loop, the per-frame render tick with its
    active-segment lookup, [drawImageContain], and the render pass that
    wires them to the media recorder.

    Numbers: JavaScript numbers are modelled as exact rationals [Q].
    A media element's [duration] is [None] when it is NaN (metadata not
    determinable); HTMLMediaElement durations are never negative.  An
    infinite duration is outside this model. *)

From Stdlib Require Import List QArith Qround Qminmax Lqa Lia ZArith String Bool.
Import ListNotations.
Open Scope Q_scope.

(** ** Data model (src/types.ts) *)

Inductive AssetType := image | video.

Record Asset := mkAsset {
  asset_id : string;
  asset_type : AssetType;
  asset_url : string
}.

(** A loaded media element, as produced by [loadAsset]: an
    [HTMLImageElement] exposes [width]/[height], an [HTMLVideoElement]
    exposes [duration] and [videoWidth]/[videoHeight]. *)
Inductive Element :=
  | ImageElement (width height : Z)
  | VideoElement (duration : option Q) (videoWidth videoHeight : Z).

(** [(element as HTMLVideoElement).duration]; reading [.duration] of an
    image element yields [undefined], modelled like NaN. *)
Definition element_duration (e : Element) : option Q :=
  match e with
  | VideoElement d _ _ => d
  | ImageElement _ _ => None
  end.

(** One entry of [timeline] in [renderVideoBlob]. *)
Record Segment := mkSegment {
  seg_assetIndex : nat;
  seg_start : Q;
  seg_end : Q;
  seg_type : AssetType;
  seg_element : Element;
  seg_duration : Q
}.

Definition Timeline := list Segment.

(** ** Timeline construction (lines 160-186) *)

(** [x || 5] on a number: 0 and NaN are falsy. *)
Definition or_default (d : option Q) : Q :=
  match d with
  | Some q => if Qeq_bool q 0 then 5 else q
  | None => 5
  end.

(** [let duration = 5; if (asset.type === 'video')
       duration = (element as HTMLVideoElement).duration || 5;] *)
Definition occurrence_duration (a : Asset) (e : Element) : Q :=
  match asset_type a with
  | image => 5
  | video => or_default (element_duration e)
  end.

Definition Qltb (x y : Q) : bool := negb (Qle_bool y x).

(** The [while (cursor < totalDuration)] loop, with explicit fuel; the
    result is [None] when [content.assets[...]] is [undefined] (reading
    its [.type] throws).  Both lists have the same length in the source
    ([loadedAssets = Promise.all(content.assets.map(loadAsset))]), so
    both lookups fail together, exactly when the asset list is empty.
    [build_fuel] below gives enough fuel for the loop to exit through its
    guard (lemma [build_loop_chain]). *)
Fixpoint build_loop (fuel : nat) (assets : list Asset)
    (loadedAssets : list Element) (totalDuration cursor : Q)
    (assetIdx : nat) : option Timeline :=
  match fuel with
  | O => Some []
  | S fuel' =>
    if Qltb cursor totalDuration then
      match nth_error assets (Nat.modulo assetIdx (List.length assets)),
            nth_error loadedAssets (Nat.modulo assetIdx (List.length loadedAssets)) with
      | Some asset, Some element =>
        let duration := occurrence_duration asset element in
        match build_loop fuel' assets loadedAssets totalDuration
                (cursor + duration) (S assetIdx) with
        | Some rest =>
          Some (mkSegment assetIdx cursor (cursor + duration)
                  (asset_type asset) element duration :: rest)
        | None => None
        end
      | _, _ => None
      end
    else Some []
  end.

(** The smallest occurrence duration over the asset list (at most 5). *)
Definition min_duration (assets : list Asset) (loadedAssets : list Element) : Q :=
  fold_right Qmin 5 (map (fun p => occurrence_duration (fst p) (snd p))
                         (combine assets loadedAssets)).

(** Every iteration advances the cursor by at least [min_duration], so
    [ceil (totalDuration / min_duration)] iterations reach the guard. *)
Definition build_fuel (assets : list Asset) (loadedAssets : list Element)
    (totalDuration : Q) : nat :=
  Z.to_nat (Qceiling (totalDuration / min_duration assets loadedAssets)).

Definition build_timeline (assets : list Asset) (loadedAssets : list Element)
    (totalDuration : Q) : option Timeline :=
  build_loop (build_fuel assets loadedAssets totalDuration) assets loadedAssets
    totalDuration 0 0.

(** [timeline[timeline.length-1]] *)
Definition last_item (tl : Timeline) : option Segment :=
  nth_error tl (List.length tl - 1).

(** The lookup predicate of the render loop:
    [elapsed >= t.start && elapsed < t.end]. *)
Definition is_active (elapsed : Q) (s : Segment) : bool :=
  Qle_bool (seg_start s) elapsed && Qltb elapsed (seg_end s).

(** [timeline.find(t => elapsed >= t.start && elapsed < t.end)
        || timeline[timeline.length-1]] *)
Definition find_active (timeline : Timeline) (elapsed : Q) : option Segment :=
  match find (is_active elapsed) timeline with
  | Some s => Some s
  | None => last_item timeline
  end.

(** ** Frame compositing (lines 195-248) *)

(** Operations a render tick performs on the canvas context and media
    elements, in program order. *)
Inductive CanvasOp :=
  | FillRect (fillStyle : string) (x y w h : Z)
  | SetCurrentTime (el : Element) (t : Q)
  | DrawImage (el : Element) (dx dy dw dh : Q).

Definition is_draw (op : CanvasOp) : bool :=
  match op with DrawImage _ _ _ _ _ => true | _ => false end.

(** [img instanceof HTMLVideoElement ? img.videoWidth : img.width] *)
Definition natural_width (img : Element) : Z :=
  match img with VideoElement _ w _ => w | ImageElement w _ => w end.

Definition natural_height (img : Element) : Z :=
  match img with VideoElement _ _ h => h | ImageElement _ h => h end.

(** [drawImageContain(ctx, img, cw, ch)] *)
Definition drawImageContain (img : Element) (cw ch : Z) : list CanvasOp :=
  let imgWidth := natural_width img in
  let imgHeight := natural_height img in
  if (imgWidth =? 0)%Z || (imgHeight =? 0)%Z then [] else
  let imgAspect := inject_Z imgWidth / inject_Z imgHeight in
  let canvasAspect := inject_Z cw / inject_Z ch in
  if Qltb canvasAspect imgAspect then
    (* Image is wider than canvas *)
    let renderW := inject_Z cw in
    let renderH := inject_Z cw / imgAspect in
    let offsetX := 0 in
    let offsetY := (inject_Z ch - renderH) / 2 in
    [DrawImage img offsetX offsetY renderW renderH]
  else
    (* Image is taller than canvas *)
    let renderH := inject_Z ch in
    let renderW := inject_Z ch * imgAspect in
    let offsetY := 0 in
    let offsetX := (inject_Z cw - renderW) / 2 in
    [DrawImage img offsetX offsetY renderW renderH].

(** JavaScript's truncating [%] on finite numbers: [x - y * trunc (x / y)]
    (a zero divisor gives NaN in JavaScript; segment durations are never
    zero). *)
Definition Qtrunc (q : Q) : Z :=
  if Qle_bool 0 q then Qfloor q else Qceiling q.

Definition js_rem (x y : Q) : Q := x - y * inject_Z (Qtrunc (x / y)).

(** The body of [renderLoop] once [elapsed < totalDuration]: look up the
    active item, clear to black, seek a video, draw. *)
Definition render_frame (timeline : Timeline) (elapsed : Q) (cw ch : Z)
    : list CanvasOp :=
  match find_active timeline elapsed with
  | Some activeItem =>
    FillRect "#000000" 0 0 cw ch ::
    match seg_type activeItem with
    | image => drawImageContain (seg_element activeItem) cw ch
    | video =>
      let vidTime := js_rem (elapsed - seg_start activeItem)
                            (seg_duration activeItem) in
      SetCurrentTime (seg_element activeItem) vidTime ::
      drawImageContain (seg_element activeItem) cw ch
    end
  | None => []
  end.

(** ** The render pass [renderVideoBlob] (lines 101-219) *)

Inductive AspectRatio := AR_16_9 | AR_9_16.

(** The fields of [GeneratedContent] the render pass reads. *)
Record GeneratedContent := mkContent {
  audioUrl : option string;
  assets : list Asset;
  aspectRatio : AspectRatio
}.

(** What the browser supplies to one render pass. *)
Record Browser := mkBrowser {
  (** [canvas.getContext('2d')] is non-null *)
  canvas_context_ok : bool;
  (** [img.onload] with [width]/[height], or [None] for [img.onerror] *)
  load_image : string -> option (Z * Z);
  (** [vid.onloadedmetadata] with [duration], [videoWidth], [videoHeight],
      or [None] for [vid.onerror] *)
  load_video : string -> option (option Q * Z * Z);
  (** [fetch] + [decodeAudioData]: the buffer's duration, or [None] when
      either rejects *)
  decode_audio : string -> option Q;
  (** [audioCtx.currentTime - startTime] at successive [renderLoop] calls *)
  clock : list Q;
  (** [e.data] of successive [ondataavailable] events *)
  recorded : list (list Byte.byte);
  (** [new MediaRecorder(combinedStream, { mimeType: 'video/webm' })] and
      [recorder.start()] do not throw (both throw [NotSupportedError] when
      the browser cannot record that stream as WebM) *)
  recorder_ok : bool;
  (** [recorder.onerror]: [Some k] when the recorder's error event is
      dispatched after the first [S k] calls of [renderLoop] (the first
      call runs synchronously in the executor, the others are animation
      frames); [None] when it never fires *)
  recorder_error : option nat
}.

Inductive RenderError :=
  | MissingContent          (* throw new Error("Missing content") *)
  | NoCanvasContext         (* throw new Error("No canvas context") *)
  | AssetLoadFailed         (* Promise.all(content.assets.map(loadAsset)) rejects *)
  | AudioDecodeFailed       (* fetch or decodeAudioData rejects *)
  | RecorderNotSupported    (* new MediaRecorder(...) or recorder.start() throws *)
  | RecorderFailed          (* recorder.onerror: reject(e) *)
  | TimelineTypeError.      (* content.assets[...] is undefined in the loop *)

(** Observable steps of the pass. *)
Inductive Event :=
  | RecorderStart
  | AudioStart
  | TimelineBuilt (tl : Timeline)
  | Frame (ops : list CanvasOp)
  | RecorderStop
  | RecorderError.  (* recorder.onerror runs: audioCtx.close(); reject(e) *)

(** State of the returned promise after the observed ticks. *)
Inductive Outcome :=
  | Resolved (blob : list Byte.byte)
  | Rejected (e : RenderError)
  | Pending.

(** [loadAsset] *)
Definition loadAsset (br : Browser) (a : Asset) : option Element :=
  match asset_type a with
  | video =>
    match load_video br (asset_url a) with
    | Some (d, w, h) => Some (VideoElement d w h)
    | None => None
    end
  | image =>
    match load_image br (asset_url a) with
    | Some (w, h) => Some (ImageElement w h)
    | None => None
    end
  end.

(** [Promise.all(content.assets.map(loadAsset))] *)
Fixpoint load_all (br : Browser) (l : list Asset) : option (list Element) :=
  match l with
  | [] => Some []
  | a :: r =>
    match loadAsset br a, load_all br r with
    | Some e, Some es => Some (e :: es)
    | _, _ => None
    end
  end.

(** [renderLoop] over the observed clock readings; the boolean tells
    whether [recorder.stop()] was reached. *)
Fixpoint renderLoop (timeline : Timeline) (totalDuration : Q) (cw ch : Z)
    (ticks : list Q) : list Event * bool :=
  match ticks with
  | [] => ([], false)
  | elapsed :: rest =>
    if Qle_bool totalDuration elapsed then ([RecorderStop], true)
    else
      let (evs, stopped) := renderLoop timeline totalDuration cw ch rest in
      (Frame (render_frame timeline elapsed cw ch) :: evs, stopped)
  end.

(** [recorder.onstop]: [new Blob(chunks)], where [ondataavailable] kept
    the chunks with [e.data.size > 0]. *)
Definition onstop_blob (data : list (list Byte.byte)) : list Byte.byte :=
  List.concat (filter (fun c => Nat.ltb 0 (List.length c)) data).

(** [!content.audioUrl]: undefined and the empty string are falsy. *)
Definition url_missing (u : option string) : bool :=
  match u with
  | None => true
  | Some s => String.eqb s ""
  end.

(** Where [recorder.onerror] falls in the events [evs] of [renderLoop],
    one event per call: after the first [S k] calls, provided that is
    before the call that ran [recorder.stop()] (a stopped recorder is
    inactive and raises no error) and within the observed calls. *)
Definition recorder_failure (err : option nat) (evs : list Event) (stopped : bool)
    : option nat :=
  match err with
  | None => None
  | Some k =>
    if (if stopped then Nat.ltb (S k) (List.length evs)
        else Nat.leb (S k) (List.length evs))
    then Some (S k) else None
  end.

Definition renderVideoBlob (content : GeneratedContent) (br : Browser)
    : list Event * Outcome :=
  if url_missing (audioUrl content) || Nat.eqb (List.length (assets content)) 0
  then ([], Rejected MissingContent) else
  let isPortrait := match aspectRatio content with AR_9_16 => true | AR_16_9 => false end in
  let width : Z := if isPortrait then 1080%Z else 1920%Z in
  let height : Z := if isPortrait then 1920%Z else 1080%Z in
  if negb (canvas_context_ok br) then ([], Rejected NoCanvasContext) else
  match load_all br (assets content) with
  | None => ([], Rejected AssetLoadFailed)
  | Some loadedAssets =>
    match decode_audio br (match audioUrl content with Some u => u | None => "" end) with
    | None => ([], Rejected AudioDecodeFailed)
    | Some totalDuration =>
      if negb (recorder_ok br) then ([], Rejected RecorderNotSupported) else
      (* inside the Promise executor: recorder.start(); sourceNode.start(0) *)
      let started := [RecorderStart; AudioStart] in
      match build_timeline (assets content) loadedAssets totalDuration with
      | None => (started, Rejected TimelineTypeError)
      | Some timeline =>
        let (evs, stopped) := renderLoop timeline totalDuration width height (clock br) in
        match recorder_failure (recorder_error br) evs stopped with
        | Some n =>
          (* the loop keeps drawing and later calls stop() on the inactive
             recorder; onstop's resolve comes after the reject *)
          (started ++ TimelineBuilt timeline :: firstn n evs ++ RecorderError :: skipn n evs,
           Rejected RecorderFailed)
        | None =>
          (started ++ TimelineBuilt timeline :: evs,
           if stopped then Resolved (onstop_blob (recorded br)) else Pending)
        end
      end
    end
  end.

(** Span of a segment, for stating results. *)
Definition span (s : Segment) : Q * Q := (seg_start s, seg_end s).

(** A media element reports a non-negative duration or NaN. *)
Definition element_wf (e : Element) : Prop :=
  forall d, element_duration e = Some d -> 0 <= d.

(** Shape of a built timeline, used in the proofs: each segment starts
    where the previous one ended and has positive duration. *)
Fixpoint chain (c : Q) (tl : Timeline) : Prop :=
  match tl with
  | [] => True
  | s :: r =>
    seg_start s = c /\ seg_end s = seg_start s + seg_duration s /\
    0 < seg_duration s /\ chain (seg_end s) r
  end.

Fixpoint final_end (c : Q) (tl : Timeline) : Q :=
  match tl with
  | [] => c
  | s :: r => final_end (seg_end s) r
  end.

Definition img1 : Asset := mkAsset "a1" image "blob:img".
Definition img1_el : Element := ImageElement 1024 768.

(** Sample inputs used by the examples and witnesses below. *)
Definition vid1 : Asset := mkAsset "v1" video "blob:vid".
Definition vid1_el : Element := VideoElement (Some (7 # 2)) 1280 720.

Definition spans3 (tl : Timeline) : list (Q * Q * Q) :=
  map (fun s => (seg_start s, seg_end s, seg_duration s)) tl.

Definition demo_content : GeneratedContent :=
  mkContent (Some "blob:audio"%string) [img1] AR_16_9.

Definition demo_browser (data : list (list Byte.byte)) : Browser :=
  mkBrowser true (fun _ => Some (1024%Z, 768%Z)) (fun _ => None)
    (fun _ => Some 10) [0; 5; 10] data true None.

Definition demo_chunks : list (list Byte.byte) :=
  [[Byte.x1a; Byte.x45]; []; [Byte.xdf; Byte.xa3]].

(** The same browser whose recorder raises its error event after the
    first call of [renderLoop]. *)
Definition demo_browser_err : Browser :=
  mkBrowser true (fun _ => Some (1024%Z, 768%Z)) (fun _ => None)
    (fun _ => Some 10) [0; 5; 10] demo_chunks true (Some 0%nat).

Definition blank_segment : Segment :=
  mkSegment 0 0 5 video (VideoElement (Some 5) 0 0) 5.

Ltac demo_wf :=
  repeat constructor; intros d Hd; simpl in Hd; try discriminate;
  injection Hd as <-; apply Qle_bool_iff; reflexivity.

Example build_img_12 :
  option_map (map span) (build_timeline [img1] [img1_el] 12)
  = Some [(0, 0 + 5); (0 + 5, 0 + 5 + 5); (0 + 5 + 5, 0 + 5 + 5 + 5)].
Proof. reflexivity. Qed.

(** ** The preview player (lines 40-98 and the preview markup) *)

(** The component state the preview reads and writes, with the
    [content.assets] it currently shows. *)
Record Preview := mkPreview {
  pv_assets : list Asset;
  isPlaying : bool;
  currentAssetIndex : nat
}.

(** [const currentAsset = content.assets[currentAssetIndex]] *)
Definition currentAsset (p : Preview) : option Asset :=
  nth_error (pv_assets p) (currentAssetIndex p).

Inductive PreviewEvent :=
  | TogglePreview                   (* the play/pause button: [togglePreview] *)
  | SlideshowTick                   (* the 5000 ms interval of the slideshow effect *)
  | VideoAssetEnded                 (* [<video onEnded={handleVideoAssetEnded}>] *)
  | AudioEnded                      (* [<audio onEnded={handleAudioEnded}>] *)
  | SelectAsset (idx : nat)         (* a timeline thumbnail: [setCurrentAssetIndex(idx)] *)
  | AssetsChanged (l : list Asset). (* new [content.assets], then the reset effect *)

(** One event, or [None] when it cannot happen in that state: the
    [<video>], [<audio>] (hence [audioRef.current]) and the play button are
    only rendered under [content.assets.length > 0 && currentAsset], the
    [<video>] only for a video asset, the interval only runs while playing
    on an image, and the thumbnails are [content.assets.map(...)]. The
    button is also hidden while a video is rendered; that restriction is
    not modelled, so more toggles are allowed than the page offers. *)
Definition preview_step (p : Preview) (ev : PreviewEvent) : option Preview :=
  let n := List.length (pv_assets p) in
  match ev with
  | TogglePreview =>
      match currentAsset p with
      | Some _ => Some (mkPreview (pv_assets p) (negb (isPlaying p)) (currentAssetIndex p))
      | None => None
      end
  | SlideshowTick =>
      match currentAsset p with
      | Some a =>
          if isPlaying p && (0 <? n)%nat then
            match asset_type a with
            | image => Some (mkPreview (pv_assets p) (isPlaying p)
                                       (Nat.modulo (S (currentAssetIndex p)) n))
            | video => None
            end
          else None
      | None => None
      end
  | VideoAssetEnded =>
      match currentAsset p with
      | Some a =>
          match asset_type a with
          | video =>
              if isPlaying p
              then Some (mkPreview (pv_assets p) (isPlaying p)
                                   (Nat.modulo (S (currentAssetIndex p)) n))
              else Some p
          | image => None
          end
      | None => None
      end
  | AudioEnded =>
      match currentAsset p with
      | Some _ => Some (mkPreview (pv_assets p) false 0)
      | None => None
      end
  | SelectAsset idx =>
      if (idx <? n)%nat then Some (mkPreview (pv_assets p) (isPlaying p) idx) else None
  | AssetsChanged l =>
      Some (mkPreview l (isPlaying p)
              (if (List.length l <=? currentAssetIndex p)%nat && (0 <? List.length l)%nat
               then 0%nat else currentAssetIndex p))
  end.

Fixpoint preview_run (p : Preview) (evs : list PreviewEvent) : option Preview :=
  match evs with
  | [] => Some p
  | ev :: rest =>
      match preview_step p ev with
      | Some p' => preview_run p' rest
      | None => None
      end
  end.

(** [useState(false)], [useState(0)] *)
Definition preview_init (l : list Asset) : Preview := mkPreview l false 0.

(** ** The download file name (lines 258-259) *)

(** A JS string as its UTF-16 code units. *)
Definition JSString := list N.

Fixpoint js_of_string (s : string) : JSString :=
  match s with
  | EmptyString => []
  | String c r => Ascii.N_of_ascii c :: js_of_string r
  end.

Definition is_ascii_alnum (u : N) : bool :=
  ((48 <=? u) && (u <=? 57))%N || ((65 <=? u) && (u <=? 90))%N
  || ((97 <=? u) && (u <=? 122))%N.

(** [s.replace(/[^a-z0-9]/gi, '_')]: every code unit outside [a-zA-Z0-9]
    becomes ['_'] (95); the class has no astral characters, so each half
    of a surrogate pair is replaced on its own. *)
Definition replace_non_alnum (s : JSString) : JSString :=
  map (fun u => if is_ascii_alnum u then u else 95%N) s.

(** [s.toLowerCase()], written for the strings it receives here, whose code
    units are ASCII letters, digits and ['_']: only [A-Z] change. *)
Definition toLowerCase_ascii (s : JSString) : JSString :=
  map (fun u => if ((65 <=? u) && (u <=? 90))%N then (u + 32)%N else u) s.

(** [a || b] on strings: [b] when [a] is empty. *)
Definition js_or (a b : JSString) : JSString :=
  match a with
  | [] => b
  | _ => a
  end.

(** [handleDownloadVideo]: [`${filename}.webm`] *)
Definition download_stem (title : JSString) : JSString :=
  toLowerCase_ascii (replace_non_alnum (js_or title (js_of_string "news_video"))).

Definition download_filename (title : JSString) : JSString :=
  download_stem title ++ js_of_string ".webm".

(** ** The YouTube upload [uploadVideoToYouTube] (src/unnamed/part_000, lines 53-118) *)

(** How the [XMLHttpRequest] of the PUT finishes: [onload] with its status
    and whether [JSON.parse(xhr.response)] succeeds, or [onerror]. *)
Inductive XhrResult :=
  | XhrLoad (status : Z) (json_ok : bool)
  | XhrError.

Inductive UploadOutcome := UploadResolved | UploadRejected | UploadPending.

(** [initResponse.ok], the [Location] header ([None] for [null]) and the
    PUT. A [JSON.parse] that throws inside [onload] calls neither
    [resolve] nor [reject], so the promise stays pending. *)
Definition uploadVideoToYouTube (init_ok : bool) (location : option JSString)
    (xhr : XhrResult) : UploadOutcome :=
  if negb init_ok then UploadRejected else
  match location with
  | None | Some [] => UploadRejected
  | Some _ =>
      match xhr with
      | XhrLoad st json_ok =>
          if ((200 <=? st) && (st <? 300))%Z
          then (if json_ok then UploadResolved else UploadPending)
          else UploadRejected
      | XhrError => UploadRejected
      end
  end.

(** ** Download and publish across the App (ProductionMonitor lines 250-283
    and 565-578, App lines 460-483 and 592-720) *)

Inductive AppState :=
  | IDLE | FETCHING_NEWS | GENERATING_SCRIPT | GENERATING_AUDIO
  | GENERATING_ASSETS | GENERATING_VEO | GENERATING_METADATA
  | GENERATING_THUMBNAIL | READY_TO_PUBLISH | PUBLISHING | PUBLISHED.

(** [type ViewType = 'dashboard' | 'archive'] *)
Inductive View := Dashboard | Archive.

(** Continuations of the async handlers still waiting on a promise.  A
    render belongs to the [ProductionMonitor] instance [gen] that started
    it; [connected] is the [connectedChannel] seen by the [onPublish]
    closure that instance holds. *)
Inductive Task :=
  | DownloadRender (gen : nat)                   (* handleDownloadVideo: await renderVideoBlob() *)
  | PublishRender (gen : nat) (connected : bool) (* handlePublishClick: await renderVideoBlob() *)
  | UploadTask.                                  (* handlePublish: await uploadVideoToYouTube(...) *)

Definition task_eqb (t u : Task) : bool :=
  match t, u with
  | DownloadRender g, DownloadRender g' => Nat.eqb g g'
  | PublishRender g c, PublishRender g' c' => Nat.eqb g g' && Bool.eqb c c'
  | UploadTask, UploadTask => true
  | _, _ => false
  end.

(** Settling one pending continuation. *)
Fixpoint remove_task (t : Task) (l : list Task) : list Task :=
  match l with
  | [] => []
  | u :: r => if task_eqb t u then r else u :: remove_task t r
  end.

(** The App's [appState], [currentView], [isChannelModalOpen] and
    [connectedChannel] (present or [null]); the mounted
    [ProductionMonitor] instance, numbered [monitor_gen], and its
    [isProcessingVideo]; the pending continuations. *)
Record Studio := mkStudio {
  appState : AppState;
  currentView : View;
  isChannelModalOpen : bool;
  connectedChannel : bool;
  monitor_gen : nat;
  isProcessingVideo : bool;
  pending : list Task
}.

Definition studio_init : Studio := mkStudio IDLE Dashboard false false 0 false [].

Definition with_appState (st : Studio) (s : AppState) : Studio :=
  mkStudio s (currentView st) (isChannelModalOpen st) (connectedChannel st)
           (monitor_gen st) (isProcessingVideo st) (pending st).

Definition with_view (st : Studio) (v : View) : Studio :=
  mkStudio (appState st) v (isChannelModalOpen st) (connectedChannel st)
           (monitor_gen st) (isProcessingVideo st) (pending st).

Definition with_modal (st : Studio) (b : bool) : Studio :=
  mkStudio (appState st) (currentView st) b (connectedChannel st)
           (monitor_gen st) (isProcessingVideo st) (pending st).

Definition with_channel (st : Studio) (c : bool) : Studio :=
  mkStudio (appState st) (currentView st) (isChannelModalOpen st) c
           (monitor_gen st) (isProcessingVideo st) (pending st).

Definition with_processing (st : Studio) (b : bool) : Studio :=
  mkStudio (appState st) (currentView st) (isChannelModalOpen st) (connectedChannel st)
           (monitor_gen st) b (pending st).

Definition with_pending (st : Studio) (l : list Task) : Studio :=
  mkStudio (appState st) (currentView st) (isChannelModalOpen st) (connectedChannel st)
           (monitor_gen st) (isProcessingVideo st) l.

(** The App renders [<ProductionMonitor>] on the dashboard unless the
    state is [IDLE] or [FETCHING_NEWS]. *)
Definition monitor_mounted (st : Studio) : bool :=
  match currentView st with
  | Archive => false
  | Dashboard =>
      match appState st with
      | IDLE | FETCHING_NEWS => false
      | _ => true
      end
  end.

(** Re-render after an App state change: a [ProductionMonitor] that
    appears is a new instance, whose [isProcessingVideo] starts at
    [useState(false)]. *)
Definition rerender (before after : Studio) : Studio :=
  if negb (monitor_mounted before) && monitor_mounted after
  then mkStudio (appState after) (currentView after) (isChannelModalOpen after)
                (connectedChannel after) (S (monitor_gen after)) false (pending after)
  else after.

(** [setIsProcessingVideo(b)] called by instance [g]: it does nothing once
    that instance has been unmounted. *)
Definition set_processing_from (g : nat) (b : bool) (st : Studio) : Studio :=
  if monitor_mounted st && Nat.eqb g (monitor_gen st) then with_processing st b else st.

(** The Download and Publish buttons: rendered in these two states,
    [disabled={isProcessingVideo}]. *)
Definition action_buttons_enabled (st : Studio) : bool :=
  monitor_mounted st &&
  match appState st with
  | READY_TO_PUBLISH | GENERATING_THUMBNAIL => negb (isProcessingVideo st)
  | _ => false
  end.

(** [handleDownloadVideo] up to [await renderVideoBlob()]. *)
Definition handleDownloadVideo (st : Studio) : Studio :=
  with_pending (with_processing st true) (pending st ++ [DownloadRender (monitor_gen st)]).

(** Its [finally { setIsProcessingVideo(false) }], whether the render
    resolved or was rejected. *)
Definition handleDownloadVideo_settled (g : nat) (st : Studio) : Studio :=
  set_processing_from g false st.

(** The App's [handlePublish(videoBlob)] up to [await uploadVideoToYouTube]. *)
Definition handlePublish (connected : bool) (st : Studio) : Studio :=
  if negb connected then with_modal st true
  else rerender st (with_pending (with_appState st PUBLISHING) (pending st ++ [UploadTask])).

(** [handlePublishClick] up to [await renderVideoBlob()]. *)
Definition handlePublishClick (st : Studio) : Studio :=
  with_pending (with_processing st true)
    (pending st ++ [PublishRender (monitor_gen st) (connectedChannel st)]).

(** Its continuation: [onPublish(blob)] when the render resolved, else
    [setIsProcessingVideo(false)] in the [catch]. *)
Definition handlePublishClick_settled (g : nat) (connected : bool) (resolved : bool)
    (st : Studio) : Studio :=
  if resolved then handlePublish connected st else set_processing_from g false st.

(** [handlePublish] after the upload: [PUBLISHED] on success (the archive
    save that follows is not modelled), [READY_TO_PUBLISH] in the [catch];
    a pending upload never gets here. *)
Definition handlePublish_settled (up : UploadOutcome) (st : Studio) : option Studio :=
  match up with
  | UploadResolved => Some (rerender st (with_appState st PUBLISHED))
  | UploadRejected => Some (rerender st (with_appState st READY_TO_PUBLISH))
  | UploadPending => None
  end.

Inductive StudioEvent :=
  | ClickDownload
  | ClickPublish
  | DownloadSettled (g : nat)
  | PublishRenderSettled (g : nat) (connected : bool) (resolved : bool)
  | UploadSettled (init_ok : bool) (location : option JSString) (xhr : XhrResult)
  | SetAppState (s : AppState)  (* any other setAppState, e.g. handleReset's IDLE *)
  | SetView (v : View)          (* setCurrentView *)
  | SetChannel (c : bool).      (* setConnectedChannel *)

(** One event, or [None] when it cannot happen: a click needs the button
    enabled, a continuation needs its task pending. *)
Definition studio_step (st : Studio) (ev : StudioEvent) : option Studio :=
  match ev with
  | ClickDownload =>
      if action_buttons_enabled st then Some (handleDownloadVideo st) else None
  | ClickPublish =>
      if action_buttons_enabled st then Some (handlePublishClick st) else None
  | DownloadSettled g =>
      if existsb (task_eqb (DownloadRender g)) (pending st)
      then Some (handleDownloadVideo_settled g
                   (with_pending st (remove_task (DownloadRender g) (pending st))))
      else None
  | PublishRenderSettled g c ok =>
      if existsb (task_eqb (PublishRender g c)) (pending st)
      then Some (handlePublishClick_settled g c ok
                   (with_pending st (remove_task (PublishRender g c) (pending st))))
      else None
  | UploadSettled i loc xhr =>
      if existsb (task_eqb UploadTask) (pending st)
      then handlePublish_settled (uploadVideoToYouTube i loc xhr)
             (with_pending st (remove_task UploadTask (pending st)))
      else None
  | SetAppState s => Some (rerender st (with_appState st s))
  | SetView v => Some (rerender st (with_view st v))
  | SetChannel c => Some (with_channel st c)
  end.

Fixpoint studio_run (st : Studio) (evs : list StudioEvent) : option Studio :=
  match evs with
  | [] => Some st
  | ev :: rest =>
      match studio_step st ev with
      | Some st' => studio_run st' rest
      | None => None
      end
  end.

(** A render of instance [g] is pending. *)
Definition is_render_of (g : nat) (t : Task) : bool :=
  match t with
  | DownloadRender g' | PublishRender g' _ => Nat.eqb g g'
  | UploadTask => false
  end.

Definition task_gen (t : Task) : nat :=
  match t with
  | DownloadRender g | PublishRender g _ => g
  | UploadTask => 0
  end.

(** What the proofs track: all tasks belong to instances up to the
    current one, and the mounted instance has at most one render pending,
    none while [isProcessingVideo] is false. *)
Definition studio_inv (st : Studio) : Prop :=
  Forall (fun t => (task_gen t <= monitor_gen st)%nat) (pending st) /\
  (monitor_mounted st = true ->
   (List.length (filter (is_render_of (monitor_gen st)) (pending st)) <= 1)%nat /\
   (isProcessingVideo st = false ->
    existsb (is_render_of (monitor_gen st)) (pending st) = false)).

(** The mounted instance is busy with no render of its own pending. *)
Definition studio_locked (st : Studio) : Prop :=
  isProcessingVideo st = true /\
  existsb (is_render_of (monitor_gen st)) (pending st) = false.

(** The code units a download stem may contain: [0-9], [a-z] and ['_']. *)
Definition safe_lower_unit (u : N) : bool :=
  ((48 <=? u) && (u <=? 57))%N || ((97 <=? u) && (u <=? 122))%N || (u =? 95)%N.

(** The timeline of the image-then-video sample over 12 s. *)
Definition demo_tl : Timeline :=
  match build_timeline [img1; vid1] [img1_el; vid1_el] 12 with
  | Some tl => tl
  | None => []
  end.

(** ** Lemmas on the timeline loop *)

Lemma Qltb_true x y : Qltb x y = true <-> x < y.
Proof.
  unfold Qltb. rewrite negb_true_iff. split; intro H.
  - apply Qnot_le_lt. intro H'. apply Qle_bool_iff in H'. congruence.
  - destruct (Qle_bool y x) eqn:E; [|reflexivity].
    apply Qle_bool_iff in E. exfalso. apply (Qlt_not_le _ _ H E).
Qed.

Lemma Qltb_false x y : Qltb x y = false <-> y <= x.
Proof.
  unfold Qltb. rewrite negb_false_iff. apply Qle_bool_iff.
Qed.

Lemma occurrence_duration_pos a e :
  element_wf e -> 0 < occurrence_duration a e.
Proof.
  intro Hwf. unfold occurrence_duration.
  destruct (asset_type a); [reflexivity|].
  unfold or_default. destruct (element_duration e) as [d|] eqn:Ed; [|reflexivity].
  destruct (Qeq_bool d 0) eqn:Eq0; [reflexivity|].
  specialize (Hwf d Ed).
  destruct (Qle_lt_or_eq _ _ Hwf) as [Hlt|Heq]; [exact Hlt|].
  exfalso. assert (Qeq_bool d 0 = true) by (apply Qeq_bool_iff; now symmetry).
  congruence.
Qed.

Lemma fold_Qmin_le (l : list Q) x : In x l -> fold_right Qmin 5 l <= x.
Proof.
  induction l as [|y l IH]; simpl; [tauto|].
  intros [->|Hin].
  - apply Q.le_min_l.
  - eapply Qle_trans; [apply Q.le_min_r|]. now apply IH.
Qed.

Lemma fold_Qmin_pos (l : list Q) :
  (forall x, In x l -> 0 < x) -> 0 < fold_right Qmin 5 l.
Proof.
  induction l as [|y l IH]; simpl; intro H; [reflexivity|].
  apply Q.min_glb_lt; [apply H; now left|].
  apply IH. intros x Hx. apply H. now right.
Qed.

Lemma nth_error_In_combine {A B} (l1 : list A) (l2 : list B) i a b :
  nth_error l1 i = Some a -> nth_error l2 i = Some b ->
  In (a, b) (combine l1 l2).
Proof.
  revert l1 l2. induction i as [|i IH]; intros [|x l1] [|y l2]; simpl;
    try discriminate.
  - intros [= ->] [= ->]. now left.
  - intros H1 H2. right. now apply IH.
Qed.

Section Builder.
Variables (assets : list Asset) (loadedAssets : list Element).
Hypothesis assets_nonempty : assets <> [].
Hypothesis loaded_length : List.length loadedAssets = List.length assets.
Hypothesis loaded_wf : Forall element_wf loadedAssets.

Let m := min_duration assets loadedAssets.

Lemma min_duration_pos : 0 < m.
Proof.
  unfold m, min_duration. apply fold_Qmin_pos.
  intros x Hx. apply in_map_iff in Hx as [[a e] [<- Hin]].
  apply occurrence_duration_pos. simpl.
  apply in_combine_r in Hin. rewrite Forall_forall in loaded_wf. auto.
Qed.

Lemma lookup_at idx :
  exists a e,
    nth_error assets (Nat.modulo idx (List.length assets)) = Some a /\
    nth_error loadedAssets (Nat.modulo idx (List.length loadedAssets)) = Some e /\
    m <= occurrence_duration a e.
Proof.
  rewrite loaded_length.
  assert (Hlt : (Nat.modulo idx (List.length assets) < List.length assets)%nat).
  { apply Nat.mod_upper_bound. destruct assets; simpl; [congruence|lia]. }
  destruct (nth_error assets _) as [a|] eqn:Ea;
    [|apply nth_error_None in Ea; lia].
  destruct (nth_error loadedAssets _) as [e|] eqn:Ee;
    [|apply nth_error_None in Ee; lia].
  exists a, e. split; [reflexivity|]. split; [reflexivity|].
  unfold m, min_duration. apply fold_Qmin_le.
  apply in_map_iff. exists (a, e). split; [reflexivity|].
  eapply nth_error_In_combine; eauto.
Qed.

Lemma inject_nat_succ (f : nat) :
  inject_Z (Z.of_nat (S f)) == inject_Z (Z.of_nat f) + 1.
Proof.
  rewrite Nat2Z.inj_succ, <- Z.add_1_r, inject_Z_plus. reflexivity.
Qed.

(** Loop invariant: with enough fuel the loop returns a chain starting at
    the cursor, reaching [totalDuration], whose segments all start before
    [totalDuration]. *)
Lemma build_loop_chain totalDuration (fuel : nat) : forall cursor idx,
  totalDuration <= cursor + inject_Z (Z.of_nat fuel) * m ->
  exists tl,
    build_loop fuel assets loadedAssets totalDuration cursor idx = Some tl /\
    chain cursor tl /\ totalDuration <= final_end cursor tl /\
    (forall s, In s tl -> seg_start s < totalDuration).
Proof.
  induction fuel as [|fuel IH]; intros cursor idx Hfuel.
  - exists []. simpl. repeat split; [|tauto].
    change (inject_Z (Z.of_nat 0)) with 0 in Hfuel. simpl. lra.
  - simpl. destruct (Qltb cursor totalDuration) eqn:Eg.
    + apply Qltb_true in Eg.
      destruct (lookup_at idx) as (a & e & -> & -> & Hm).
      set (d := occurrence_duration a e) in *.
      destruct (IH (cursor + d) (S idx)) as (tl & -> & Hch & Hend & Hst).
      { rewrite inject_nat_succ, Qmult_plus_distr_l in Hfuel. lra. }
      eexists. split; [reflexivity|]. simpl.
      pose proof min_duration_pos.
      repeat split; try (reflexivity || assumption || lra).
      intros s [<-|Hin]; [exact Eg|auto].
    + apply Qltb_false in Eg. exists []. simpl. repeat split; [assumption|tauto].
Qed.

Lemma build_fuel_enough totalDuration :
  totalDuration <= 0 + inject_Z (Z.of_nat (build_fuel assets loadedAssets totalDuration)) * m.
Proof.
  pose proof min_duration_pos as Hm.
  unfold build_fuel. fold m.
  assert (Hx : totalDuration == totalDuration / m * m)
    by (field; intro H0; rewrite H0 in Hm; discriminate).
  pose proof (Qle_ceiling (totalDuration / m)) as Hc.
  destruct (Qceiling (totalDuration / m)) as [|p|p] eqn:Ec.
  - simpl. change (inject_Z 0) with 0 in *. nra.
  - rewrite Z2Nat.id by lia. nra.
  - change (Z.to_nat (Z.neg p)) with 0%nat.
    change (inject_Z (Z.of_nat 0)) with 0.
    assert (inject_Z (Z.neg p) < 0) by (unfold Qlt; simpl; lia). nra.
Qed.

(** Once the fuel covers the distance to [totalDuration], more fuel does
    not change the result: [build_timeline] is the unbounded loop's. *)
Lemma build_loop_fuel_stable totalDuration (fuel : nat) : forall fuel' cursor idx,
  (fuel <= fuel')%nat ->
  totalDuration <= cursor + inject_Z (Z.of_nat fuel) * m ->
  build_loop fuel' assets loadedAssets totalDuration cursor idx =
  build_loop fuel assets loadedAssets totalDuration cursor idx.
Proof.
  induction fuel as [|fuel IH]; intros fuel' cursor idx Hle Hfuel.
  - change (inject_Z (Z.of_nat 0)) with 0 in Hfuel.
    destruct fuel' as [|fuel']; [reflexivity|]. simpl.
    replace (Qltb cursor totalDuration) with false
      by (symmetry; apply Qltb_false; lra).
    reflexivity.
  - destruct fuel' as [|fuel']; [lia|]. simpl.
    destruct (Qltb cursor totalDuration); [|reflexivity].
    destruct (lookup_at idx) as (a & e & -> & -> & Hm).
    rewrite (IH fuel'); [reflexivity|lia|].
    rewrite inject_nat_succ, Qmult_plus_distr_l in Hfuel. lra.
Qed.

Lemma build_timeline_chain totalDuration :
  exists tl,
    build_timeline assets loadedAssets totalDuration = Some tl /\
    chain 0 tl /\ totalDuration <= final_end 0 tl /\
    (forall s, In s tl -> seg_start s < totalDuration).
Proof. apply build_loop_chain, build_fuel_enough. Qed.

End Builder.

(** ** Reading a chain *)

Lemma chain_start_le c tl :
  chain c tl -> forall s, In s tl -> c <= seg_start s.
Proof.
  revert c. induction tl as [|s0 r IH]; simpl; intros c Hch s Hin; [tauto|].
  destruct Hch as (Hs & He & Hd & Hr).
  destruct Hin as [<-|Hin].
  - rewrite Hs. apply Qle_refl.
  - specialize (IH _ Hr s Hin). rewrite He, Hs in IH. lra.
Qed.

Lemma chain_span_pos c tl :
  chain c tl -> forall s, In s tl -> seg_start s < seg_end s.
Proof.
  revert c. induction tl as [|s0 r IH]; simpl; intros c Hch s Hin; [tauto|].
  destruct Hch as (Hs & He & Hd & Hr).
  destruct Hin as [<-|Hin]; [rewrite He; lra|eauto].
Qed.

Lemma chain_contiguous c tl : chain c tl ->
  forall i s1 s2, nth_error tl i = Some s1 -> nth_error tl (S i) = Some s2 ->
  seg_end s1 = seg_start s2.
Proof.
  revert c. induction tl as [|s0 r IH]; intros c Hch i s1 s2; [destruct i; discriminate|].
  destruct Hch as (Hs & He & Hd & Hr).
  destruct i as [|i]; simpl.
  - intros [= <-] H2. destruct r as [|s' r]; [discriminate|].
    simpl in H2. injection H2 as <-. simpl in Hr. symmetry. apply Hr.
  - apply (IH _ Hr).
Qed.

Lemma chain_ordered c tl : chain c tl ->
  forall i j si sj, (i < j)%nat -> nth_error tl i = Some si ->
  nth_error tl j = Some sj -> seg_end si <= seg_start sj.
Proof.
  revert c. induction tl as [|s0 r IH]; intros c Hch i j si sj Hij;
    [destruct i; discriminate|].
  destruct Hch as (Hs & He & Hd & Hr).
  destruct i as [|i], j as [|j]; simpl; try lia.
  - intros [= <-] Hj. apply (chain_start_le _ _ Hr). eapply nth_error_In; eauto.
  - intros Hi Hj. apply (IH _ Hr i j); auto; lia.
Qed.

Lemma last_item_cons s r :
  last_item (s :: r) = match r with [] => Some s | _ => last_item r end.
Proof.
  unfold last_item. destruct r as [|s' r]; [reflexivity|].
  simpl. rewrite Nat.sub_0_r. reflexivity.
Qed.

Lemma chain_last c tl : tl <> [] ->
  exists s, last_item tl = Some s /\ seg_end s = final_end c tl.
Proof.
  revert c. induction tl as [|s0 r IH]; intros c Hne; [congruence|].
  rewrite last_item_cons. destruct r as [|s' r].
  - exists s0. split; reflexivity.
  - apply (IH (seg_end s0)). discriminate.
Qed.

Lemma chain_cover c tl : chain c tl ->
  forall t, c <= t < final_end c tl ->
  exists s, In s tl /\ seg_start s <= t < seg_end s.
Proof.
  revert c. induction tl as [|s0 r IH]; simpl; intros c Hch t Ht; [lra|].
  destruct Hch as (Hs & He & Hd & Hr).
  destruct (Qlt_le_dec t (seg_end s0)) as [Hlt|Hge].
  - exists s0. split; [now left|]. rewrite Hs. lra.
  - destruct (IH _ Hr t) as (s & Hin & Hst); [lra|].
    exists s. split; [now right|exact Hst].
Qed.

(** ** Timeline Builder *)

(** C1.  For a non-empty asset list (loaded elements as [loadAsset]
    produces them: one per asset, durations non-negative or NaN) and
    [totalDuration > 0], the timeline built by the loop is contiguous
    (each segment ends where the next starts), non-overlapping, made of
    non-empty spans, starts at 0, its last segment ends at or after
    [totalDuration], and every instant of [[0, totalDuration)] lies in
    some segment. *)
Theorem timeline_contiguous_covering (assets : list Asset)
    (loadedAssets : list Element) (totalDuration : Q) :
  assets <> [] ->
  List.length loadedAssets = List.length assets ->
  Forall element_wf loadedAssets ->
  0 < totalDuration ->
  exists tl,
    build_timeline assets loadedAssets totalDuration = Some tl /\
    (forall i s1 s2, nth_error tl i = Some s1 -> nth_error tl (S i) = Some s2 ->
       seg_end s1 = seg_start s2) /\
    (forall i j si sj, (i < j)%nat -> nth_error tl i = Some si ->
       nth_error tl j = Some sj -> seg_end si <= seg_start sj) /\
    (forall s, In s tl -> seg_start s < seg_end s) /\
    (exists s0, nth_error tl 0 = Some s0 /\ seg_start s0 = 0) /\
    (exists sl, last_item tl = Some sl /\ totalDuration <= seg_end sl) /\
    (forall t, 0 <= t < totalDuration ->
       exists s, In s tl /\ seg_start s <= t < seg_end s).
Proof.
  intros Hne Hlen Hwf Hpos.
  destruct (build_timeline_chain assets loadedAssets Hne Hlen Hwf totalDuration)
    as (tl & Hb & Hch & Hend & _).
  assert (Htl : tl <> []) by (intros ->; simpl in Hend; lra).
  exists tl. split; [exact Hb|].
  split; [exact (chain_contiguous _ _ Hch)|].
  split; [exact (chain_ordered _ _ Hch)|].
  split; [exact (chain_span_pos _ _ Hch)|].
  split.
  { destruct tl as [|s0 r]; [congruence|]. exists s0. split; [reflexivity|].
    apply Hch. }
  split.
  { destruct (chain_last 0 tl Htl) as (sl & Hl & He). exists sl.
    split; [exact Hl|]. rewrite He. exact Hend. }
  intros t Ht. apply (chain_cover _ _ Hch). lra.
Qed.

Lemma is_active_iff t s :
  is_active t s = true <-> seg_start s <= t < seg_end s.
Proof.
  unfold is_active. rewrite andb_true_iff, Qle_bool_iff, Qltb_true. tauto.
Qed.

Lemma chain_unique c tl : chain c tl ->
  forall t s s', In s tl -> In s' tl ->
  seg_start s <= t < seg_end s -> seg_start s' <= t < seg_end s' -> s = s'.
Proof.
  intros Hch t s s' Hs Hs' Ht Ht'.
  apply In_nth_error in Hs as [i Hi], Hs' as [j Hj].
  destruct (Nat.lt_trichotomy i j) as [Hij|[<-|Hij]].
  - pose proof (chain_ordered _ _ Hch i j s s' Hij Hi Hj). lra.
  - congruence.
  - pose proof (chain_ordered _ _ Hch j i s' s Hij Hj Hi). lra.
Qed.

Lemma find_active_unique c tl : chain c tl ->
  forall t s, In s tl -> seg_start s <= t < seg_end s ->
  find_active tl t = Some s.
Proof.
  intros Hch t s Hin Ht. unfold find_active.
  destruct (find (is_active t) tl) as [s'|] eqn:Ef.
  - apply find_some in Ef as [Hin' Ha]. apply is_active_iff in Ha.
    f_equal. exact (chain_unique _ _ Hch t s' s Hin' Hin Ha Ht).
  - exfalso. apply find_none with (x := s) in Ef; [|exact Hin].
    apply is_active_iff in Ht. congruence.
Qed.

(** ** Render loop: active-segment lookup *)

(** C2.  For every [t] in [[0, totalDuration)], exactly one segment of the
    built timeline satisfies [start <= t < end], and the render loop's
    lookup ([find ... || timeline[timeline.length-1]]) returns it; at a
    boundary between consecutive segments the later one is returned. *)
Theorem active_segment_unique (assets : list Asset)
    (loadedAssets : list Element) (totalDuration : Q) :
  assets <> [] ->
  List.length loadedAssets = List.length assets ->
  Forall element_wf loadedAssets ->
  0 < totalDuration ->
  exists tl,
    build_timeline assets loadedAssets totalDuration = Some tl /\
    (forall t, 0 <= t < totalDuration ->
       exists s, In s tl /\ seg_start s <= t < seg_end s /\
         (forall s', In s' tl -> seg_start s' <= t < seg_end s' -> s' = s) /\
         find_active tl t = Some s) /\
    (forall i s1 s2, nth_error tl i = Some s1 -> nth_error tl (S i) = Some s2 ->
       find_active tl (seg_end s1) = Some s2).
Proof.
  intros Hne Hlen Hwf Hpos.
  destruct (build_timeline_chain assets loadedAssets Hne Hlen Hwf totalDuration)
    as (tl & Hb & Hch & Hend & _).
  exists tl. split; [exact Hb|]. split.
  - intros t Ht.
    destruct (chain_cover _ _ Hch t) as (s & Hin & Hst); [lra|].
    exists s. split; [exact Hin|]. split; [exact Hst|]. split.
    + intros s' Hin' Hst'. exact (chain_unique _ _ Hch t s' s Hin' Hin Hst' Hst).
    + exact (find_active_unique _ _ Hch t s Hin Hst).
  - intros i s1 s2 H1 H2.
    apply (find_active_unique _ _ Hch); [eapply nth_error_In; eauto|].
    rewrite (chain_contiguous _ _ Hch i s1 s2 H1 H2).
    split; [apply Qle_refl|].
    apply (chain_span_pos _ _ Hch). eapply nth_error_In; eauto.
Qed.

(** ** Aspect-fit placement *)

Lemma contain_wide (W H CW CH : Q) :
  0 < W -> 0 < H -> 0 < CW -> 0 < CH -> CW / CH < W / H ->
  let h := CW / (W / H) in
  CW * H == h * W /\ 0 < h /\ h <= CH.
Proof.
  intros HW HH HCW HCH Hlt h.
  assert (Hh : h == CW * H / W) by (unfold h; field; split; intro E; rewrite E in *; discriminate).
  assert (Hh' : h * W == CW * H) by (rewrite Hh; field; intro E; rewrite E in HW; discriminate).
  assert (Hc : CW / CH * CH == CW) by (field; intro E; rewrite E in HCH; discriminate).
  assert (Ha : W / H * H == W) by (field; intro E; rewrite E in HH; discriminate).
  assert (HP : 0 < CH * H) by (apply Qmult_lt_0_compat; assumption).
  assert (Hx : CW / CH * (CH * H) < W / H * (CH * H))
    by (apply Qmult_lt_r; assumption).
  assert (Hcross : CW * H < CH * W).
  { setoid_replace (CW * H) with (CW / CH * CH * H) by (rewrite Hc; reflexivity).
    setoid_replace (CH * W) with (W / H * H * CH) by (rewrite Ha; ring).
    setoid_replace (CW / CH * CH * H) with (CW / CH * (CH * H)) by ring.
    setoid_replace (W / H * H * CH) with (W / H * (CH * H)) by ring.
    exact Hx. }
  split; [symmetry; exact Hh'|].
  split; rewrite Hh.
  - apply Qlt_shift_div_l; [exact HW|]. setoid_replace (0 * W) with 0 by ring.
    apply Qmult_lt_0_compat; assumption.
  - apply Qle_shift_div_r; [exact HW|]. apply Qlt_le_weak. exact Hcross.
Qed.

Lemma contain_tall (W H CW CH : Q) :
  0 < W -> 0 < H -> 0 < CW -> 0 < CH -> W / H <= CW / CH ->
  let w := CH * (W / H) in
  w * H == CH * W /\ 0 < w /\ w <= CW.
Proof.
  intros HW HH HCW HCH Hle w.
  assert (Hw : w == CH * W / H) by (unfold w; field; intro E; rewrite E in HH; discriminate).
  assert (Hc : CW / CH * CH == CW) by (field; intro E; rewrite E in HCH; discriminate).
  assert (Ha : W / H * H == W) by (field; intro E; rewrite E in HH; discriminate).
  assert (HP : 0 < CH * H) by (apply Qmult_lt_0_compat; assumption).
  assert (Hx : W / H * (CH * H) <= CW / CH * (CH * H))
    by (apply Qmult_le_compat_r; [assumption|apply Qlt_le_weak; assumption]).
  assert (Hcross : CH * W <= CW * H).
  { setoid_replace (CW * H) with (CW / CH * CH * H) by (rewrite Hc; reflexivity).
    setoid_replace (CH * W) with (W / H * H * CH) by (rewrite Ha; ring).
    setoid_replace (CW / CH * CH * H) with (CW / CH * (CH * H)) by ring.
    setoid_replace (W / H * H * CH) with (W / H * (CH * H)) by ring.
    exact Hx. }
  split; [rewrite Hw; field; intro E; rewrite E in HH; discriminate|].
  split; rewrite Hw.
  - apply Qlt_shift_div_l; [exact HH|]. setoid_replace (0 * H) with 0 by ring.
    apply Qmult_lt_0_compat; assumption.
  - apply Qle_shift_div_r; [exact HH|]. exact Hcross.
Qed.

Lemma half_margin (c h : Q) : (c - h) / 2 + h + (c - h) / 2 == c.
Proof. field. Qed.

Lemma margin_bounds (c h : Q) :
  h <= c -> 0 <= (c - h) / 2 /\ (c - h) / 2 + h <= c.
Proof. intro H. unfold Qdiv. change (/ 2) with (1 # 2). split; lra. Qed.

(** C5.  For a frame with positive natural dimensions [iw x ih] and a
    canvas [cw x ch] (positive, as the render pass's 1920x1080 or
    1080x1920), [drawImageContain] draws one rectangle: when
    [iw/ih > cw/ch] it spans the canvas width at x = 0 with equal margins
    above and below; otherwise it spans the canvas height at y = 0 with
    equal margins left and right.  The rectangle has the frame's aspect
    ratio ([w * ih = h * iw]) and lies inside the canvas. *)
Theorem drawImageContain_aspect_fit (img : Element) (cw ch : Z) :
  (0 < natural_width img)%Z -> (0 < natural_height img)%Z ->
  (0 < cw)%Z -> (0 < ch)%Z ->
  let iw := inject_Z (natural_width img) in
  let ih := inject_Z (natural_height img) in
  exists x y w h,
    drawImageContain img cw ch = [DrawImage img x y w h] /\
    (inject_Z cw / inject_Z ch < iw / ih ->
       w == inject_Z cw /\ x == 0 /\ y + h + y == inject_Z ch) /\
    (iw / ih <= inject_Z cw / inject_Z ch ->
       h == inject_Z ch /\ y == 0 /\ x + w + x == inject_Z cw) /\
    w * ih == h * iw /\ 0 < w /\ 0 < h /\
    0 <= x /\ x + w <= inject_Z cw /\ 0 <= y /\ y + h <= inject_Z ch.
Proof.
  intros Hw Hh Hcw Hch iw ih.
  rewrite Zlt_Qlt in Hw, Hh, Hcw, Hch.
  change (inject_Z 0) with 0 in Hw, Hh, Hcw, Hch.
  unfold drawImageContain.
  destruct (natural_width img =? 0)%Z eqn:Ew;
    [apply Z.eqb_eq in Ew; rewrite Ew in Hw; discriminate|].
  destruct (natural_height img =? 0)%Z eqn:Eh;
    [apply Z.eqb_eq in Eh; rewrite Eh in Hh; discriminate|].
  simpl orb. cbv zeta. fold iw ih. fold iw ih in Hw, Hh.
  destruct (Qltb (inject_Z cw / inject_Z ch) (iw / ih)) eqn:Ea.
  - apply Qltb_true in Ea.
    destruct (contain_wide iw ih (inject_Z cw) (inject_Z ch) Hw Hh Hcw Hch Ea)
      as (Hasp & Hpos & Hle).
    do 4 eexists. split; [reflexivity|].
    split; [intros _; split; [reflexivity|split; [reflexivity|apply half_margin]]|].
    split; [intro Hc; exfalso; apply (Qlt_not_le _ _ Ea Hc)|].
    split; [rewrite <- Hasp; ring|].
    destruct (margin_bounds _ _ Hle).
    repeat split; try assumption; try lra.
  - apply Qltb_false in Ea.
    destruct (contain_tall iw ih (inject_Z cw) (inject_Z ch) Hw Hh Hcw Hch Ea)
      as (Hasp & Hpos & Hle).
    do 4 eexists. split; [reflexivity|].
    split; [intro Hc; exfalso; apply (Qlt_not_le _ _ Hc Ea)|].
    split; [intros _; split; [reflexivity|split; [reflexivity|apply half_margin]]|].
    split; [rewrite Hasp; ring|].
    destruct (margin_bounds _ _ Hle).
    repeat split; try assumption; try lra.
Qed.

(** ** Seeking inside a video segment *)

Lemma chain_seg c tl : chain c tl ->
  forall s, In s tl -> seg_end s = seg_start s + seg_duration s /\ 0 < seg_duration s.
Proof.
  revert c. induction tl as [|s0 r IH]; simpl; intros c Hch s Hin; [tauto|].
  destruct Hch as (Hs & He & Hd & Hr).
  destruct Hin as [<-|Hin]; [tauto|eauto].
Qed.

Lemma Qfloor_unit_interval q : 0 <= q -> q < 1 -> Qfloor q = 0%Z.
Proof.
  intros H0 H1.
  pose proof (Qfloor_le q) as Hle. pose proof (Qlt_floor q) as Hlt.
  assert (A : (Qfloor q < 1)%Z) by (rewrite Zlt_Qlt; eapply Qle_lt_trans; eauto).
  assert (B : (0 < Qfloor q + 1)%Z) by (rewrite Zlt_Qlt; eapply Qle_lt_trans; eauto).
  lia.
Qed.

Lemma js_rem_in_range x d : 0 <= x -> x < d ->
  js_rem x d == x /\ Qtrunc (x / d) = Qfloor (x / d) /\ Qfloor (x / d) = 0%Z.
Proof.
  intros H0 H1.
  assert (Hd : 0 < d) by lra.
  assert (Q0 : 0 <= x / d).
  { apply Qle_shift_div_l; [exact Hd|]. setoid_replace (0 * d) with 0 by ring. exact H0. }
  assert (Q1 : x / d < 1).
  { apply Qlt_shift_div_r; [exact Hd|]. setoid_replace (1 * d) with d by ring. exact H1. }
  assert (Ht : Qtrunc (x / d) = Qfloor (x / d)).
  { unfold Qtrunc. apply Qle_bool_iff in Q0. now rewrite Q0. }
  assert (Hf := Qfloor_unit_interval _ Q0 Q1).
  unfold js_rem. rewrite Ht, Hf. split; [|tauto].
  change (inject_Z 0) with 0. ring.
Qed.

(** C4.  In the built timeline, for every segment [s] and every [t] with
    [seg_start s <= t < seg_end s], the render loop picks [s]; when [s] is
    a video, the tick clears to black, sets [vid.currentTime] to
    [(t - start) % duration] -- which equals the mathematical
    [(t - start) mod duration], here [t - start] -- and only then draws;
    when [s] is an image, the tick clears and draws with no seek. *)
Theorem render_frame_seek_offset (assets : list Asset)
    (loadedAssets : list Element) (totalDuration : Q) (cw ch : Z) :
  assets <> [] ->
  List.length loadedAssets = List.length assets ->
  Forall element_wf loadedAssets ->
  exists tl,
    build_timeline assets loadedAssets totalDuration = Some tl /\
    forall s t, In s tl -> seg_start s <= t < seg_end s ->
      find_active tl t = Some s /\
      (seg_type s = video ->
         render_frame tl t cw ch =
           FillRect "#000000" 0 0 cw ch ::
           SetCurrentTime (seg_element s) (js_rem (t - seg_start s) (seg_duration s)) ::
           drawImageContain (seg_element s) cw ch /\
         js_rem (t - seg_start s) (seg_duration s) ==
           (t - seg_start s) - seg_duration s *
             inject_Z (Qfloor ((t - seg_start s) / seg_duration s)) /\
         js_rem (t - seg_start s) (seg_duration s) == t - seg_start s) /\
      (seg_type s = image ->
         render_frame tl t cw ch =
           FillRect "#000000" 0 0 cw ch :: drawImageContain (seg_element s) cw ch).
Proof.
  intros Hne Hlen Hwf.
  destruct (build_timeline_chain assets loadedAssets Hne Hlen Hwf totalDuration)
    as (tl & Hb & Hch & _ & _).
  exists tl. split; [exact Hb|].
  intros s t Hin Ht.
  pose proof (find_active_unique _ _ Hch t s Hin Ht) as Hf.
  destruct (chain_seg _ _ Hch s Hin) as [He Hd].
  split; [exact Hf|].
  unfold render_frame. rewrite Hf. split; intro Hty; rewrite Hty; [|reflexivity].
  split; [reflexivity|].
  destruct (js_rem_in_range (t - seg_start s) (seg_duration s)) as (Hr & _ & Hfl);
    [lra|rewrite He in Ht; lra|].
  split; [|exact Hr].
  rewrite Hr, Hfl. change (inject_Z 0) with 0. ring.
Qed.

(** ** Frames with no natural size *)

(** C10.  When the element's natural width or height is 0,
    [drawImageContain] returns before computing any aspect ratio and
    draws nothing; a render tick whose active item is such an element
    performs the opaque-black [fillRect] and no [drawImage]. *)
Theorem zero_size_frame_not_drawn (tl : Timeline) (t : Q) (cw ch : Z)
    (s : Segment) :
  find_active tl t = Some s ->
  (natural_width (seg_element s) = 0 \/ natural_height (seg_element s) = 0)%Z ->
  drawImageContain (seg_element s) cw ch = [] /\
  exists ops,
    render_frame tl t cw ch = FillRect "#000000" 0 0 cw ch :: ops /\
    forallb (fun op => negb (is_draw op)) ops = true.
Proof.
  intros Hf Hz.
  assert (Hd : drawImageContain (seg_element s) cw ch = []).
  { unfold drawImageContain.
    destruct Hz as [Hz|Hz]; rewrite Hz; simpl; [reflexivity|].
    now rewrite orb_true_r. }
  split; [exact Hd|].
  unfold render_frame. rewrite Hf, Hd.
  destruct (seg_type s); eexists; split; reflexivity.
Qed.

(** ** Concrete timelines *)

Lemma is_active_past t s : seg_end s <= t -> is_active t s = false.
Proof.
  intro H. destruct (is_active t s) eqn:E; [|reflexivity].
  apply is_active_iff in E. lra.
Qed.

Lemma renderLoop_prefix tl total cw ch (pre : list Q) t rest :
  Forall (fun r => r < total) pre -> total <= t ->
  renderLoop tl total cw ch (pre ++ t :: rest) =
  (map (fun r => Frame (render_frame tl r cw ch)) pre ++ [RecorderStop], true).
Proof.
  intros Hpre Ht. induction Hpre as [|r pre Hr Hpre IH]; simpl.
  - replace (Qle_bool total t) with true by (symmetry; apply Qle_bool_iff; exact Ht).
    reflexivity.
  - replace (Qle_bool total r) with false.
    + rewrite IH. reflexivity.
    + symmetry. destruct (Qle_bool total r) eqn:E; [|reflexivity].
      apply Qle_bool_iff in E. lra.
Qed.

(** C3 (as stated: three segments [0,5), [5,10), [10,12)) fails: the
    third segment is [10,15). *)
Lemma single_image_12_not_truncated :
  ~ (exists tl, build_timeline [img1] [img1_el] 12 = Some tl /\
       map span tl = [(0, 5); (5, 10); (10, 12)]).
Proof.
  intros (tl & Hb & Hs). vm_compute in Hb. injection Hb as <-.
  vm_compute in Hs. discriminate.
Qed.

(** C3 (amended).  A single image asset with totalDuration 12 gives three
    5-second segments [0,5), [5,10), [10,15), all bound to the same image
    (asset index taken modulo 1); the last one extends past 12.  The
    render loop uses it for [10,12): a tick there clears the canvas and
    draws that image; and the loop stops ([recorder.stop()]) at the first
    clock reading with elapsed >= 12, after one frame per earlier
    reading. *)
Theorem single_image_12_timeline (i u : string) (e : Element) :
  exists tl,
    build_timeline [mkAsset i image u] [e] 12 = Some tl /\
    spans3 tl = [(0, 5, 5); (5, 10, 5); (10, 15, 5)] /\
    map seg_element tl = [e; e; e] /\
    map seg_type tl = [image; image; image] /\
    (forall t, 10 <= t < 12 -> exists s, last_item tl = Some s /\ find_active tl t = Some s) /\
    (forall cw ch t, 10 <= t < 12 ->
       render_frame tl t cw ch = FillRect "#000000" 0 0 cw ch :: drawImageContain e cw ch) /\
    (forall cw ch (pre : list Q) t rest, Forall (fun r => r < 12) pre -> 12 <= t ->
       renderLoop tl 12 cw ch (pre ++ t :: rest) =
       (map (fun r => Frame (render_frame tl r cw ch)) pre ++ [RecorderStop], true)).
Proof.
  set (seg k st en := mkSegment k st en image e 5).
  exists [seg 0%nat 0 5; seg 1%nat 5 10; seg 2%nat 10 15].
  assert (Hfa : forall t, 10 <= t < 12 ->
            find_active [seg 0%nat 0 5; seg 1%nat 5 10; seg 2%nat 10 15] t
            = Some (seg 2%nat 10 15)).
  { intros t Ht. unfold find_active. cbn [find].
    rewrite (is_active_past t (seg 0%nat 0 5)) by (simpl; lra).
    rewrite (is_active_past t (seg 1%nat 5 10)) by (simpl; lra).
    rewrite (proj2 (is_active_iff t (seg 2%nat 10 15))) by (simpl; lra).
    reflexivity. }
  split; [reflexivity|].
  split; [reflexivity|]. split; [reflexivity|]. split; [reflexivity|].
  split; [intros t Ht; eexists; split; [reflexivity|exact (Hfa t Ht)]|].
  split.
  - intros cw ch t Ht. unfold render_frame. rewrite (Hfa t Ht). reflexivity.
  - intros cw ch pre t rest Hpre Ht. apply renderLoop_prefix; assumption.
Qed.

(** C9.  Against 10 seconds of audio: one image asset gives two 5-second
    segments; one video whose element reports 12 seconds gives the single
    segment [0,12) covering the whole audio; a video whose duration is
    NaN or 0 falls back to 5 seconds like an image. *)
Theorem ten_second_audio_timelines (i u : string) (w h : Z) :
  option_map spans3 (build_timeline [mkAsset i image u] [ImageElement w h] 10)
    = Some [(0, 5, 5); (5, 10, 5)] /\
  option_map spans3 (build_timeline [mkAsset i video u] [VideoElement (Some 12) w h] 10)
    = Some [(0, 12, 12)] /\
  option_map spans3 (build_timeline [mkAsset i video u] [VideoElement None w h] 10)
    = Some [(0, 5, 5); (5, 10, 5)] /\
  option_map spans3 (build_timeline [mkAsset i video u] [VideoElement (Some 0) w h] 10)
    = Some [(0, 5, 5); (5, 10, 5)].
Proof. repeat split; reflexivity. Qed.

(** ** Render pass outcomes *)

(** C6.  With no assets, [renderVideoBlob] throws its "Missing content"
    error at once: no timeline is built, the recorder never starts and no
    frame is drawn. *)
Theorem zero_assets_rejected (content : GeneratedContent) (br : Browser) :
  assets content = [] ->
  renderVideoBlob content br = ([], Rejected MissingContent).
Proof.
  intro H. unfold renderVideoBlob. rewrite H. simpl.
  now rewrite orb_true_r.
Qed.

Lemma renderLoop_stop tl total cw ch ticks :
  In RecorderStop (fst (renderLoop tl total cw ch ticks)) ->
  snd (renderLoop tl total cw ch ticks) = true.
Proof.
  induction ticks as [|el rest IH]; simpl; [tauto|].
  destruct (Qle_bool total el); [reflexivity|].
  destruct (renderLoop tl total cw ch rest) as [evs stopped]. simpl.
  intros [H|H]; [discriminate|exact (IH H)].
Qed.

(** C8 (as stated: zero chunks at finalization give EmptyOutputError)
    fails: a pass that reaches [recorder.stop()] with no recorded data
    resolves with an empty blob. *)
Lemma zero_chunks_resolve_empty :
  In RecorderStop (fst (renderVideoBlob demo_content (demo_browser []))) /\
  snd (renderVideoBlob demo_content (demo_browser [])) = Resolved [].
Proof. vm_compute. split; [right; right; right; right; right; left|]; reflexivity. Qed.

Lemma load_all_spec br (l : list Asset) :
  match load_all br l with
  | Some loaded =>
    List.length loaded = List.length l /\
    forall k a, nth_error l k = Some a ->
      exists e, nth_error loaded k = Some e /\ loadAsset br a = Some e
  | None => exists a, In a l /\ loadAsset br a = None
  end.
Proof.
  induction l as [|a l IH]; simpl.
  - split; [reflexivity|]. intros k a Hk. destruct k; discriminate.
  - destruct (loadAsset br a) as [e|] eqn:Ea.
    + destruct (load_all br l) as [es|].
      * destruct IH as [Hlen Hnth]. split; [simpl; congruence|].
        intros [|k] a' Hk; simpl in Hk.
        -- injection Hk as <-. exists e. auto.
        -- simpl. exact (Hnth k a' Hk).
      * destruct IH as (a' & Hin & Hn). exists a'. auto.
    + exists a. auto.
Qed.

Lemma build_loop_some assets loadedAssets totalDuration (fuel : nat) :
  assets <> [] -> List.length loadedAssets = List.length assets ->
  forall cursor idx,
  build_loop fuel assets loadedAssets totalDuration cursor idx <> None.
Proof.
  intros Hne Hlen. induction fuel as [|fuel IH]; intros cursor idx; simpl; [discriminate|].
  destruct (Qltb cursor totalDuration); [|discriminate].
  assert (Hlt : (Nat.modulo idx (List.length assets) < List.length assets)%nat).
  { apply Nat.mod_upper_bound. destruct assets; simpl; [congruence|lia]. }
  destruct (nth_error assets _) as [a|] eqn:Ea; [|apply nth_error_None in Ea; lia].
  rewrite Hlen.
  destruct (nth_error loadedAssets _) as [e|] eqn:Ee; [|apply nth_error_None in Ee; lia].
  specialize (IH (cursor + occurrence_duration a e) (S idx)).
  destruct (build_loop fuel _ _ _ _ _); [discriminate|congruence].
Qed.

Lemma renderLoop_no_error tl total cw ch ticks :
  ~ In RecorderError (fst (renderLoop tl total cw ch ticks)).
Proof.
  induction ticks as [|el rest IH]; simpl; [tauto|].
  destruct (Qle_bool total el); simpl; [intros [H|H]; [discriminate|exact H]|].
  destruct (renderLoop tl total cw ch rest) as [evs stopped]. simpl in *.
  intros [H|H]; [discriminate|exact (IH H)].
Qed.

(** The pass after its guards: what [renderVideoBlob] does once the
    assets have loaded, the audio has decoded and the recorder exists. *)
Lemma renderVideoBlob_cases (content : GeneratedContent) (br : Browser) :
  (fst (renderVideoBlob content br) = [] /\
   exists e, snd (renderVideoBlob content br) = Rejected e /\
     e <> RecorderFailed /\ e <> TimelineTypeError) \/
  exists tl total cw ch evs stopped,
    renderLoop tl total cw ch (clock br) = (evs, stopped) /\
    match recorder_failure (recorder_error br) evs stopped with
    | Some n =>
      renderVideoBlob content br =
        ([RecorderStart; AudioStart; TimelineBuilt tl] ++
         firstn n evs ++ RecorderError :: skipn n evs, Rejected RecorderFailed)
    | None =>
      renderVideoBlob content br =
        ([RecorderStart; AudioStart; TimelineBuilt tl] ++ evs,
         if stopped then Resolved (onstop_blob (recorded br)) else Pending)
    end.
Proof.
  unfold renderVideoBlob.
  destruct (url_missing (audioUrl content) || Nat.eqb (List.length (assets content)) 0)
    eqn:Eg; [left; split; [reflexivity|eexists; split; [reflexivity|split; discriminate]]|].
  apply orb_false_iff in Eg as [_ Hn]. apply Nat.eqb_neq in Hn.
  destruct (negb (canvas_context_ok br));
    [left; split; [reflexivity|eexists; split; [reflexivity|split; discriminate]]|].
  pose proof (load_all_spec br (assets content)) as Hs.
  destruct (load_all br (assets content)) as [loaded|];
    [|left; split; [reflexivity|eexists; split; [reflexivity|split; discriminate]]].
  destruct Hs as [Hlen _].
  destruct (decode_audio br _) as [total|];
    [|left; split; [reflexivity|eexists; split; [reflexivity|split; discriminate]]].
  destruct (negb (recorder_ok br));
    [left; split; [reflexivity|eexists; split; [reflexivity|split; discriminate]]|].
  unfold build_timeline.
  destruct (build_loop _ (assets content) loaded total 0 0) as [tl|] eqn:Eb.
  - right. set (cw := match aspectRatio content with AR_9_16 => 1080%Z | AR_16_9 => 1920%Z end).
    set (ch := match aspectRatio content with AR_9_16 => 1920%Z | AR_16_9 => 1080%Z end).
    destruct (renderLoop tl total cw ch (clock br)) as [evs stopped] eqn:E.
    exists tl, total, cw, ch, evs, stopped. split; [exact E|].
    replace (renderLoop tl total
               (if match aspectRatio content with AR_9_16 => true | AR_16_9 => false end
                then 1080%Z else 1920%Z)
               (if match aspectRatio content with AR_9_16 => true | AR_16_9 => false end
                then 1920%Z else 1080%Z) (clock br)) with (evs, stopped)
      by (rewrite <- E; subst cw ch; destruct (aspectRatio content); reflexivity).
    destruct (recorder_failure (recorder_error br) evs stopped); reflexivity.
  - exfalso. revert Eb. apply build_loop_some; [|exact Hlen].
    intros H. rewrite H in Hn. apply Hn. reflexivity.
Qed.

(** C8 (amended).  Once the pass reaches [recorder.stop()], it either
    resolves with one blob that concatenates the non-empty recorded chunks
    in arrival order (with no such chunk the blob is empty and the pass
    still resolves), or, when the recorder raised its error event before
    that call, it has been rejected by [recorder.onerror]. *)
Theorem stopped_pass_resolves (content : GeneratedContent) (br : Browser) :
  In RecorderStop (fst (renderVideoBlob content br)) ->
  (In RecorderError (fst (renderVideoBlob content br)) /\
   snd (renderVideoBlob content br) = Rejected RecorderFailed) \/
  (~ In RecorderError (fst (renderVideoBlob content br)) /\
   snd (renderVideoBlob content br) =
     Resolved (List.concat (filter (fun c => Nat.ltb 0 (List.length c)) (recorded br))) /\
   (filter (fun c => Nat.ltb 0 (List.length c)) (recorded br) = [] ->
    snd (renderVideoBlob content br) = Resolved [])).
Proof.
  intro H.
  destruct (renderVideoBlob_cases content br)
    as [[He _]|(tl & total & cw & ch & evs & stopped & E & Hc)];
    [rewrite He in H; destruct H|].
  destruct (recorder_failure (recorder_error br) evs stopped) as [n|];
    rewrite Hc in *; simpl in *.
  - left. split; [|reflexivity]. right; right; right.
    apply in_or_app. right. left. reflexivity.
  - assert (Hin : In RecorderStop evs)
      by (destruct H as [H|[H|[H|H]]]; try discriminate; exact H).
    assert (Hs : stopped = true).
    { change stopped with (snd (evs, stopped)). rewrite <- E.
      apply renderLoop_stop. rewrite E. exact Hin. }
    subst stopped. right. split; [|split; [reflexivity|]].
    + intros [H1|[H1|[H1|H1]]]; try discriminate.
      apply (renderLoop_no_error tl total cw ch (clock br)). rewrite E. exact H1.
    + intro Hn. unfold onstop_blob. now rewrite Hn.
Qed.

(** ** Witnesses: the theorems applied to concrete inputs *)

Lemma timeline_contiguous_covering_witness :
  [img1; vid1] <> [] /\
  List.length [img1_el; vid1_el] = List.length [img1; vid1] /\
  Forall element_wf [img1_el; vid1_el] /\ 0 < 12 /\
  exists tl,
    build_timeline [img1; vid1] [img1_el; vid1_el] 12 = Some tl /\
    (forall i s1 s2, nth_error tl i = Some s1 -> nth_error tl (S i) = Some s2 ->
       seg_end s1 = seg_start s2) /\
    (forall i j si sj, (i < j)%nat -> nth_error tl i = Some si ->
       nth_error tl j = Some sj -> seg_end si <= seg_start sj) /\
    (forall s, In s tl -> seg_start s < seg_end s) /\
    (exists s0, nth_error tl 0 = Some s0 /\ seg_start s0 = 0) /\
    (exists sl, last_item tl = Some sl /\ 12 <= seg_end sl) /\
    (forall t, 0 <= t < 12 -> exists s, In s tl /\ seg_start s <= t < seg_end s).
Proof.
  assert (Hwf : Forall element_wf [img1_el; vid1_el]) by demo_wf.
  split; [discriminate|]. split; [reflexivity|]. split; [exact Hwf|].
  split; [reflexivity|].
  apply timeline_contiguous_covering; [discriminate|reflexivity|exact Hwf|reflexivity].
Defined.

Lemma active_segment_unique_witness :
  [img1; vid1] <> [] /\
  List.length [img1_el; vid1_el] = List.length [img1; vid1] /\
  Forall element_wf [img1_el; vid1_el] /\ 0 < 12 /\
  exists tl,
    build_timeline [img1; vid1] [img1_el; vid1_el] 12 = Some tl /\
    (forall t, 0 <= t < 12 ->
       exists s, In s tl /\ seg_start s <= t < seg_end s /\
         (forall s', In s' tl -> seg_start s' <= t < seg_end s' -> s' = s) /\
         find_active tl t = Some s) /\
    (forall i s1 s2, nth_error tl i = Some s1 -> nth_error tl (S i) = Some s2 ->
       find_active tl (seg_end s1) = Some s2).
Proof.
  assert (Hwf : Forall element_wf [img1_el; vid1_el]) by demo_wf.
  split; [discriminate|]. split; [reflexivity|]. split; [exact Hwf|].
  split; [reflexivity|].
  apply active_segment_unique; [discriminate|reflexivity|exact Hwf|reflexivity].
Defined.

Lemma render_frame_seek_offset_witness :
  [img1; vid1] <> [] /\
  List.length [img1_el; vid1_el] = List.length [img1; vid1] /\
  Forall element_wf [img1_el; vid1_el] /\
  exists tl,
    build_timeline [img1; vid1] [img1_el; vid1_el] 12 = Some tl /\
    forall s t, In s tl -> seg_start s <= t < seg_end s ->
      find_active tl t = Some s /\
      (seg_type s = video ->
         render_frame tl t 1920 1080 =
           FillRect "#000000" 0 0 1920 1080 ::
           SetCurrentTime (seg_element s) (js_rem (t - seg_start s) (seg_duration s)) ::
           drawImageContain (seg_element s) 1920 1080 /\
         js_rem (t - seg_start s) (seg_duration s) ==
           (t - seg_start s) - seg_duration s *
             inject_Z (Qfloor ((t - seg_start s) / seg_duration s)) /\
         js_rem (t - seg_start s) (seg_duration s) == t - seg_start s) /\
      (seg_type s = image ->
         render_frame tl t 1920 1080 =
           FillRect "#000000" 0 0 1920 1080 :: drawImageContain (seg_element s) 1920 1080).
Proof.
  assert (Hwf : Forall element_wf [img1_el; vid1_el]) by demo_wf.
  split; [discriminate|]. split; [reflexivity|]. split; [exact Hwf|].
  apply render_frame_seek_offset; [discriminate|reflexivity|exact Hwf].
Defined.

Lemma drawImageContain_aspect_fit_witness :
  (0 < natural_width vid1_el)%Z /\ (0 < natural_height vid1_el)%Z /\
  (0 < 1080)%Z /\ (0 < 1920)%Z /\
  let iw := inject_Z (natural_width vid1_el) in
  let ih := inject_Z (natural_height vid1_el) in
  exists x y w h,
    drawImageContain vid1_el 1080 1920 = [DrawImage vid1_el x y w h] /\
    (inject_Z 1080 / inject_Z 1920 < iw / ih ->
       w == inject_Z 1080 /\ x == 0 /\ y + h + y == inject_Z 1920) /\
    (iw / ih <= inject_Z 1080 / inject_Z 1920 ->
       h == inject_Z 1920 /\ y == 0 /\ x + w + x == inject_Z 1080) /\
    w * ih == h * iw /\ 0 < w /\ 0 < h /\
    0 <= x /\ x + w <= inject_Z 1080 /\ 0 <= y /\ y + h <= inject_Z 1920.
Proof.
  split; [reflexivity|]. split; [reflexivity|]. split; [reflexivity|].
  split; [reflexivity|].
  apply drawImageContain_aspect_fit; reflexivity.
Defined.

Lemma zero_assets_rejected_witness :
  assets (mkContent (Some "blob:audio"%string) [] AR_9_16) = [] /\
  renderVideoBlob (mkContent (Some "blob:audio"%string) [] AR_9_16) (demo_browser [])
    = ([], Rejected MissingContent).
Proof.
  split; [reflexivity|]. apply zero_assets_rejected. reflexivity.
Defined.

Lemma stopped_pass_resolves_witness :
  In RecorderStop (fst (renderVideoBlob demo_content (demo_browser demo_chunks))) /\
  ((In RecorderError (fst (renderVideoBlob demo_content (demo_browser demo_chunks))) /\
    snd (renderVideoBlob demo_content (demo_browser demo_chunks)) = Rejected RecorderFailed) \/
   (~ In RecorderError (fst (renderVideoBlob demo_content (demo_browser demo_chunks))) /\
    snd (renderVideoBlob demo_content (demo_browser demo_chunks)) =
      Resolved (List.concat (filter (fun c => Nat.ltb 0 (List.length c))
                                    (recorded (demo_browser demo_chunks)))) /\
    (filter (fun c => Nat.ltb 0 (List.length c)) (recorded (demo_browser demo_chunks)) = [] ->
     snd (renderVideoBlob demo_content (demo_browser demo_chunks)) = Resolved []))).
Proof.
  assert (H : In RecorderStop (fst (renderVideoBlob demo_content (demo_browser demo_chunks)))).
  { vm_compute. right; right; right; right; right; left. reflexivity. }
  split; [exact H|]. apply stopped_pass_resolves. exact H.
Defined.

Lemma zero_size_frame_not_drawn_witness :
  find_active [blank_segment] 2 = Some blank_segment /\
  (natural_width (seg_element blank_segment) = 0 \/
   natural_height (seg_element blank_segment) = 0)%Z /\
  drawImageContain (seg_element blank_segment) 1920 1080 = [] /\
  exists ops,
    render_frame [blank_segment] 2 1920 1080 = FillRect "#000000" 0 0 1920 1080 :: ops /\
    forallb (fun op => negb (is_draw op)) ops = true.
Proof.
  split; [reflexivity|]. split; [left; reflexivity|].
  apply zero_size_frame_not_drawn; [reflexivity|left; reflexivity].
Defined.

(** * Further properties of the render pass and its neighbours *)

(** ** Which asset each segment shows *)

Lemma build_loop_binding assets loadedAssets totalDuration (fuel : nat) :
  forall cursor idx tl,
  build_loop fuel assets loadedAssets totalDuration cursor idx = Some tl ->
  forall k s, nth_error tl k = Some s ->
    seg_assetIndex s = (idx + k)%nat /\
    exists a,
      nth_error assets (Nat.modulo (idx + k) (List.length assets)) = Some a /\
      nth_error loadedAssets (Nat.modulo (idx + k) (List.length loadedAssets))
        = Some (seg_element s) /\
      seg_type s = asset_type a /\
      seg_duration s = occurrence_duration a (seg_element s).
Proof.
  induction fuel as [|fuel IH]; intros cursor idx tl Hb k s Hk; simpl in Hb.
  - injection Hb as <-. destruct k; discriminate.
  - destruct (Qltb cursor totalDuration); [|injection Hb as <-; destruct k; discriminate].
    destruct (nth_error assets _) as [a|] eqn:Ea; [|discriminate].
    destruct (nth_error loadedAssets _) as [e|] eqn:Ee; [|discriminate].
    destruct (build_loop fuel _ _ _ _ _) as [rest|] eqn:Er; [|discriminate].
    injection Hb as <-.
    destruct k as [|k]; simpl in Hk.
    + injection Hk as <-. rewrite Nat.add_0_r. simpl.
      split; [reflexivity|]. exists a. auto.
    + destruct (IH _ _ _ Er k s Hk) as [Hi Hrest].
      rewrite <- Nat.add_succ_comm. split; [exact Hi|exact Hrest].
Qed.

(** X1.  In a built timeline the [k]-th segment records asset index [k]
    and is bound to asset [k mod n] of the asset list and to loaded
    element [k mod n]: its type is that asset's type and its duration is
    that occurrence's duration (5 for an image, the element's duration or
    5 for a video).  The asset list is replayed from the start when it is
    exhausted. *)
Theorem timeline_segment_binding (assets : list Asset)
    (loadedAssets : list Element) (totalDuration : Q) (tl : Timeline) :
  build_timeline assets loadedAssets totalDuration = Some tl ->
  forall k s, nth_error tl k = Some s ->
    seg_assetIndex s = k /\
    exists a,
      nth_error assets (Nat.modulo k (List.length assets)) = Some a /\
      nth_error loadedAssets (Nat.modulo k (List.length loadedAssets))
        = Some (seg_element s) /\
      seg_type s = asset_type a /\
      seg_duration s = occurrence_duration a (seg_element s).
Proof.
  intros Hb k s Hk.
  exact (build_loop_binding _ _ _ _ _ _ _ Hb k s Hk).
Qed.

(** ** Segment count for an all-image asset list *)

Lemma Qceiling_between (q : Q) (z : Z) :
  inject_Z (z - 1) < q -> q <= inject_Z z -> Qceiling q = z.
Proof.
  intros H1 H2.
  pose proof (Qle_ceiling q) as A. pose proof (Qceiling_lt q) as B.
  assert (C : (z - 1 < Qceiling q)%Z) by (rewrite Zlt_Qlt; eapply Qlt_le_trans; eauto).
  assert (D : (Qceiling q - 1 < z)%Z) by (rewrite Zlt_Qlt; eapply Qlt_le_trans; eauto).
  lia.
Qed.

Lemma chain_const_start c tl :
  chain c tl -> (forall s, In s tl -> seg_duration s = 5) ->
  forall k s, nth_error tl k = Some s ->
  seg_start s == c + 5 * inject_Z (Z.of_nat k).
Proof.
  revert c. induction tl as [|s0 r IH]; intros c Hch Hd k s Hk; [destruct k; discriminate|].
  destruct Hch as (Hs & He & Hp & Hr).
  destruct k as [|k]; simpl in Hk.
  - injection Hk as <-. rewrite Hs. change (inject_Z (Z.of_nat 0)) with 0. ring.
  - rewrite (IH _ Hr (fun s' H' => Hd s' (or_intror H')) k s Hk).
    rewrite He, Hs, (Hd s0 (or_introl eq_refl)), inject_nat_succ. ring.
Qed.

(** X2.  When every asset is an image, the timeline for
    [totalDuration > 0] has exactly [ceil (totalDuration / 5)] segments,
    the [k]-th spanning [[5k, 5k + 5)]. *)
Theorem all_images_segment_count (assets : list Asset)
    (loadedAssets : list Element) (totalDuration : Q) :
  assets <> [] ->
  List.length loadedAssets = List.length assets ->
  Forall element_wf loadedAssets ->
  Forall (fun a => asset_type a = image) assets ->
  0 < totalDuration ->
  exists tl,
    build_timeline assets loadedAssets totalDuration = Some tl /\
    List.length tl = Z.to_nat (Qceiling (totalDuration / 5)) /\
    forall k s, nth_error tl k = Some s ->
      seg_start s == 5 * inject_Z (Z.of_nat k) /\ seg_duration s = 5.
Proof.
  intros Hne Hlen Hwf Himg Hpos.
  destruct (build_timeline_chain assets loadedAssets Hne Hlen Hwf totalDuration)
    as (tl & Hb & Hch & Hend & Hst).
  assert (Hd : forall k s, nth_error tl k = Some s -> seg_duration s = 5).
  { intros k s Hk.
    destruct (build_loop_binding _ _ _ _ _ _ _ Hb k s Hk)
      as (_ & a & Ha & _ & _ & ->).
    rewrite Forall_forall in Himg.
    unfold occurrence_duration. rewrite (Himg a); [reflexivity|].
    eapply nth_error_In; eauto. }
  assert (Hd' : forall s, In s tl -> seg_duration s = 5).
  { intros s Hin. apply In_nth_error in Hin as [k Hk]. eauto. }
  assert (Hstart := chain_const_start 0 tl Hch Hd').
  assert (Htl : tl <> []) by (intros ->; simpl in Hend; lra).
  exists tl. split; [exact Hb|]. split.
  - destruct (chain_last 0 tl Htl) as (sl & Hl & Hle).
    unfold last_item in Hl.
    pose proof (Hstart _ _ Hl) as Hs0. rewrite Qplus_0_l in Hs0.
    destruct (chain_seg _ _ Hch sl (nth_error_In _ _ Hl)) as [He _].
    rewrite (Hd' sl (nth_error_In _ _ Hl)) in He.
    pose proof (Hst sl (nth_error_In _ _ Hl)) as Hlt.
    rewrite <- Hle in Hend. rewrite He in Hend.
    destruct (List.length tl) as [|n] eqn:En; [destruct tl; simpl in En; congruence|].
    rewrite Nat.sub_1_r in Hs0. simpl Nat.pred in Hs0.
    rewrite (Qceiling_between _ (Z.of_nat (S n))); [lia| |].
    + apply Qlt_shift_div_l; [reflexivity|].
      rewrite Nat2Z.inj_succ, <- Z.add_1_r, Z.add_simpl_r. rewrite Hs0 in Hlt. lra.
    + apply Qle_shift_div_r; [reflexivity|].
      rewrite inject_nat_succ. rewrite Hs0 in Hend. lra.
  - intros k s Hk. split; [rewrite (Hstart k s Hk); ring|exact (Hd k s Hk)].
Qed.

(** ** Overshoot of the last segment *)

(** X3.  No segment of the built timeline starts at or after
    [totalDuration]: the loop stops as soon as the cursor reaches it, so
    the last segment ends at or after [totalDuration] but overshoots it by
    less than its own duration. *)
Theorem timeline_overshoot_bounded (assets : list Asset)
    (loadedAssets : list Element) (totalDuration : Q) :
  assets <> [] ->
  List.length loadedAssets = List.length assets ->
  Forall element_wf loadedAssets ->
  0 < totalDuration ->
  exists tl,
    build_timeline assets loadedAssets totalDuration = Some tl /\
    (forall s, In s tl -> seg_start s < totalDuration) /\
    exists sl, last_item tl = Some sl /\
      totalDuration <= seg_end sl /\ seg_end sl < totalDuration + seg_duration sl.
Proof.
  intros Hne Hlen Hwf Hpos.
  destruct (build_timeline_chain assets loadedAssets Hne Hlen Hwf totalDuration)
    as (tl & Hb & Hch & Hend & Hst).
  assert (Htl : tl <> []) by (intros ->; simpl in Hend; lra).
  exists tl. split; [exact Hb|]. split; [exact Hst|].
  destruct (chain_last 0 tl Htl) as (sl & Hl & He). exists sl.
  split; [exact Hl|]. rewrite He. split; [exact Hend|].
  assert (Hin : In sl tl) by (eapply nth_error_In; exact Hl).
  destruct (chain_seg _ _ Hch sl Hin) as [He' _].
  pose proof (Hst sl Hin). rewrite <- He, He'. lra.
Qed.

(** ** Lookup outside the timeline *)

Lemma chain_end_le_final c tl :
  chain c tl -> forall s, In s tl -> seg_end s <= final_end c tl.
Proof.
  revert c. induction tl as [|s0 r IH]; simpl; intros c Hch s Hin; [tauto|].
  destruct Hch as (Hs & He & Hd & Hr).
  destruct Hin as [<-|Hin]; [|eauto].
  clear IH. revert Hr. generalize (seg_end s0) as e. clear -r.
  induction r as [|s1 r IH]; simpl; intros e Hr; [apply Qle_refl|].
  destruct Hr as (Hs & He & Hd & Hr).
  eapply Qle_trans; [|apply (IH _ Hr)]. rewrite He, Hs. lra.
Qed.

(** X4.  The render loop's lookup falls back to the last segment
    ([|| timeline[timeline.length-1]]) for an elapsed time before 0 or at
    or after the last segment's end, where no segment matches. *)
Theorem find_active_fallback_last (assets : list Asset)
    (loadedAssets : list Element) (totalDuration : Q) :
  assets <> [] ->
  List.length loadedAssets = List.length assets ->
  Forall element_wf loadedAssets ->
  exists tl,
    build_timeline assets loadedAssets totalDuration = Some tl /\
    forall t sl, last_item tl = Some sl -> t < 0 \/ seg_end sl <= t ->
      find (is_active t) tl = None /\ find_active tl t = Some sl.
Proof.
  intros Hne Hlen Hwf.
  destruct (build_timeline_chain assets loadedAssets Hne Hlen Hwf totalDuration)
    as (tl & Hb & Hch & _ & _).
  exists tl. split; [exact Hb|].
  intros t sl Hl Ht.
  assert (Hnone : find (is_active t) tl = None).
  { destruct (find (is_active t) tl) as [s|] eqn:Ef; [|reflexivity].
    apply find_some in Ef as [Hin Ha]. apply is_active_iff in Ha.
    exfalso. destruct Ht as [Ht|Ht].
    - pose proof (chain_start_le _ _ Hch s Hin). lra.
    - pose proof (chain_end_le_final _ _ Hch s Hin).
      assert (Htl : tl <> []) by (intros ->; discriminate).
      destruct (chain_last 0 tl Htl) as (sl' & Hl' & He).
      rewrite Hl in Hl'. injection Hl' as <-. rewrite He in Ht. lra. }
  split; [exact Hnone|]. unfold find_active. now rewrite Hnone.
Qed.

(** ** Loading the assets *)

(** X5.  [Promise.all(content.assets.map(loadAsset))] fails exactly when
    some asset fails to load; otherwise it yields one element per asset,
    in the asset order, a video element for each video asset and an image
    element for each image asset. *)
Theorem load_all_per_asset (br : Browser) (l : list Asset) :
  (load_all br l = None <-> exists a, In a l /\ loadAsset br a = None) /\
  forall loaded, load_all br l = Some loaded ->
    List.length loaded = List.length l /\
    forall k a, nth_error l k = Some a ->
      exists e, nth_error loaded k = Some e /\ loadAsset br a = Some e /\
        match asset_type a, e with
        | video, VideoElement _ _ _ => True
        | image, ImageElement _ _ => True
        | _, _ => False
        end.
Proof.
  pose proof (load_all_spec br l) as Hs.
  split.
  - split; intro H.
    + rewrite H in Hs. exact Hs.
    + destruct (load_all br l) as [loaded|]; [|reflexivity].
      destruct H as (a & Hin & Ha). apply In_nth_error in Hin as [k Hk].
      destruct Hs as [_ Hn]. destruct (Hn k a Hk) as (e & _ & He). congruence.
  - intros loaded Hl. rewrite Hl in Hs. destruct Hs as [Hlen Hn].
    split; [exact Hlen|]. intros k a Hk.
    destruct (Hn k a Hk) as (e & He & Ha). exists e. split; [exact He|].
    split; [exact Ha|]. revert Ha. unfold loadAsset.
    destruct (asset_type a).
    + destruct (load_image br (asset_url a)) as [[w h]|]; intros [= <-]; exact I.
    + destruct (load_video br (asset_url a)) as [[[d w] h]|]; intros [= <-]; exact I.
Qed.

(** ** Rejections of the render pass *)

Lemma renderLoop_shape tl total cw ch ticks :
  (snd (renderLoop tl total cw ch ticks) = false /\
   ~ In RecorderStop (fst (renderLoop tl total cw ch ticks))) \/
  (snd (renderLoop tl total cw ch ticks) = true /\
   exists fr, fst (renderLoop tl total cw ch ticks) = fr ++ [RecorderStop] /\
     ~ In RecorderStop fr).
Proof.
  induction ticks as [|el rest IH]; simpl; [left; tauto|].
  destruct (Qle_bool total el); simpl.
  - right. split; [reflexivity|]. exists []. simpl. tauto.
  - destruct (renderLoop tl total cw ch rest) as [evs stopped]. simpl in *.
    destruct IH as [[H1 H2]|[H1 (fr & H2 & H3)]].
    + left. split; [exact H1|]. intros [H|H]; [discriminate|tauto].
    + right. split; [exact H1|]. exists (Frame (render_frame tl el cw ch) :: fr).
      rewrite H2. split; [reflexivity|]. intros [H|H]; [discriminate|tauto].
Qed.

Lemma in_firstn_in {A} (x : A) n l : In x (firstn n l) -> In x l.
Proof. intro H. rewrite <- (firstn_skipn n l). apply in_or_app. left. exact H. Qed.

(** X6.  A rejected render pass either failed before the recorder and the
    audio source were started, with no event at all and for one of the
    early reasons (missing content, no canvas context, an asset that fails
    to load, audio that fails to fetch or decode, no WebM recorder), or
    was rejected by [recorder.onerror] after the recorder started and
    before any call of [recorder.stop()]; the timeline loop itself never
    throws inside the pass. *)
Theorem pass_rejection_cases (content : GeneratedContent) (br : Browser)
    (e : RenderError) :
  snd (renderVideoBlob content br) = Rejected e ->
  (fst (renderVideoBlob content br) = [] /\ e <> RecorderFailed /\ e <> TimelineTypeError) \/
  (e = RecorderFailed /\
   exists pre post, fst (renderVideoBlob content br) = pre ++ RecorderError :: post /\
     In RecorderStart pre /\ ~ In RecorderStop pre).
Proof.
  intro H.
  destruct (renderVideoBlob_cases content br)
    as [[He (e' & He' & H1 & H2)]|(tl & total & cw & ch & evs & stopped & E & Hc)].
  - left. rewrite H in He'. injection He' as ->. auto.
  - destruct (recorder_failure (recorder_error br) evs stopped) as [n|] eqn:Ef;
      rewrite Hc in H |- *; simpl in H.
    + injection H as <-. right. split; [reflexivity|].
      exists ([RecorderStart; AudioStart; TimelineBuilt tl] ++ firstn n evs), (skipn n evs).
      simpl. split; [reflexivity|]. split; [left; reflexivity|].
      intros [Hs|[Hs|[Hs|Hs]]]; try discriminate.
      pose proof (renderLoop_shape tl total cw ch (clock br)) as Hsh.
      rewrite E in Hsh. simpl in Hsh.
      unfold recorder_failure in Ef. destruct (recorder_error br) as [k|]; [|discriminate].
      destruct Hsh as [[-> Hno]|[-> (fr & -> & Hno)]].
      * exact (Hno (in_firstn_in _ _ _ Hs)).
      * destruct (Nat.ltb (S k) (List.length (fr ++ [RecorderStop]))) eqn:Hl;
          [|discriminate].
        injection Ef as <-. apply Nat.ltb_lt in Hl.
        rewrite length_app in Hl. simpl in Hl.
        rewrite firstn_app in Hs.
        replace (S k - List.length fr)%nat with 0%nat in Hs by lia.
        rewrite app_nil_r in Hs. exact (Hno (in_firstn_in _ _ _ Hs)).
    + destruct stopped; discriminate.
Qed.

(** ** Frames follow the audio clock *)

Lemma render_frame_nonempty tl t cw ch :
  tl <> [] -> exists ops, render_frame tl t cw ch = FillRect "#000000" 0 0 cw ch :: ops.
Proof.
  intro Hne. unfold render_frame.
  assert (Hs : exists s, find_active tl t = Some s).
  { unfold find_active. destruct (find (is_active t) tl) as [s|]; [eauto|].
    destruct (chain_last 0 tl Hne) as (s & Hl & _). eauto. }
  destruct Hs as [s ->]. destruct (seg_type s); eexists; reflexivity.
Qed.

(** X7.  Once the guards pass, the assets load and the audio decodes to
    [totalDuration > 0], the pass draws exactly one frame per clock
    reading taken before the first reading at or past [totalDuration], in
    reading order, each being the render tick at that reading on the
    fixed canvas (1080x1920 for 9:16, 1920x1080 for 16:9) and starting
    with the opaque-black fill of the whole canvas; then it stops the
    recorder and resolves with the recorded blob.  This needs a browser
    that can record WebM and a recorder that raises no error before the
    call that stops it. *)
Theorem pass_frames_follow_clock (content : GeneratedContent) (br : Browser)
    (u : string) (loaded : list Element) (total : Q) (pre : list Q) (t : Q)
    (rest : list Q) :
  audioUrl content = Some u -> u <> ""%string ->
  assets content <> [] -> canvas_context_ok br = true ->
  load_all br (assets content) = Some loaded -> Forall element_wf loaded ->
  decode_audio br u = Some total -> 0 < total ->
  clock br = pre ++ t :: rest -> Forall (fun r => r < total) pre -> total <= t ->
  recorder_ok br = true ->
  match recorder_error br with Some k => (List.length pre <= k)%nat | None => True end ->
  let W := match aspectRatio content with AR_9_16 => 1080%Z | AR_16_9 => 1920%Z end in
  let H := match aspectRatio content with AR_9_16 => 1920%Z | AR_16_9 => 1080%Z end in
  exists tl,
    build_timeline (assets content) loaded total = Some tl /\
    renderVideoBlob content br =
      ([RecorderStart; AudioStart; TimelineBuilt tl] ++
       map (fun r => Frame (render_frame tl r W H)) pre ++ [RecorderStop],
       Resolved (onstop_blob (recorded br))) /\
    forall r, In r pre -> exists ops, render_frame tl r W H = FillRect "#000000" 0 0 W H :: ops.
Proof.
  intros Hu Hu0 Hne Hctx Hl Hwf Hd Hpos Hc Hpre Ht Hrec Herr W H.
  pose proof (load_all_spec br (assets content)) as Hs. rewrite Hl in Hs.
  destruct Hs as [Hlen _].
  destruct (build_timeline_chain (assets content) loaded Hne Hlen Hwf total)
    as (tl & Hb & Hch & Hend & _).
  assert (Htl : tl <> []) by (intros ->; simpl in Hend; lra).
  exists tl. split; [exact Hb|]. split.
  - unfold renderVideoBlob. rewrite Hu. simpl url_missing.
    replace (String.eqb u "") with false by (symmetry; apply String.eqb_neq; exact Hu0).
    replace (Nat.eqb (List.length (assets content)) 0) with false
      by (symmetry; apply Nat.eqb_neq; destruct (assets content); [congruence|discriminate]).
    rewrite Hctx, Hl, Hd, Hrec, Hb. simpl orb. cbv zeta. simpl negb. cbv iota.
    assert (Hf : forall evs : list Event,
               List.length evs = S (List.length pre) ->
               recorder_failure (recorder_error br) evs true = None).
    { intros evs Hev. unfold recorder_failure.
      destruct (recorder_error br) as [k|]; [|reflexivity].
      rewrite Hev. replace (Nat.ltb (S k) (S (List.length pre))) with false
        by (symmetry; apply Nat.ltb_ge; lia). reflexivity. }
    subst W H. destruct (aspectRatio content);
      rewrite Hc, renderLoop_prefix by assumption; simpl;
      (rewrite Hf; [reflexivity|rewrite length_app, length_map; simpl; lia]).
  - intros r _. apply render_frame_nonempty. exact Htl.
Qed.

(** ** The preview player *)

Definition preview_inv (p : Preview) : Prop :=
  pv_assets p = [] \/ (currentAssetIndex p < List.length (pv_assets p))%nat.

Lemma nth_error_lt {A} (l : list A) i a : nth_error l i = Some a -> (i < List.length l)%nat.
Proof. intro H. apply nth_error_Some. congruence. Qed.

Lemma preview_step_inv p ev p' :
  preview_inv p -> preview_step p ev = Some p' -> preview_inv p'.
Proof.
  destruct p as [l pl i]. unfold preview_inv. simpl. intros Hi Hs.
  destruct ev as [| | | |idx|l']; simpl in Hs; unfold currentAsset in Hs; simpl in Hs.
  - destruct (nth_error l i) eqn:E; [|discriminate].
    injection Hs as <-. simpl. right. exact (nth_error_lt _ _ _ E).
  - destruct (nth_error l i) as [a|] eqn:E; [|discriminate].
    destruct (pl && (0 <? List.length l)%nat); [|discriminate].
    destruct (asset_type a); [|discriminate].
    injection Hs as <-. simpl. right. apply Nat.mod_upper_bound.
    pose proof (nth_error_lt _ _ _ E). lia.
  - destruct (nth_error l i) as [a|] eqn:E; [|discriminate].
    pose proof (nth_error_lt _ _ _ E).
    destruct (asset_type a); [discriminate|].
    destruct pl; injection Hs as <-; simpl; right;
      [apply Nat.mod_upper_bound; lia | exact H].
  - destruct (nth_error l i) eqn:E; [|discriminate].
    pose proof (nth_error_lt _ _ _ E).
    injection Hs as <-. simpl. right. lia.
  - destruct (idx <? List.length l)%nat eqn:B; [|discriminate].
    injection Hs as <-. simpl. right. apply Nat.ltb_lt. exact B.
  - injection Hs as <-. simpl.
    destruct (List.length l' <=? i)%nat eqn:B1, (0 <? List.length l')%nat eqn:B2; simpl.
    + right. apply Nat.ltb_lt. exact B2.
    + left. destruct l'; [reflexivity|discriminate].
    + right. apply Nat.leb_gt. exact B1.
    + right. apply Nat.leb_gt. exact B1.
Qed.

Lemma preview_run_inv p evs p' :
  preview_inv p -> preview_run p evs = Some p' -> preview_inv p'.
Proof.
  revert p. induction evs as [|ev evs IH]; simpl; intros p Hi Hr.
  - injection Hr as <-. exact Hi.
  - destruct (preview_step p ev) as [p1|] eqn:E; [|discriminate].
    exact (IH p1 (preview_step_inv p ev p1 Hi E) Hr).
Qed.

(** X8.  Whatever the user does to the preview (play/pause, thumbnail
    clicks, the slideshow ticks, a video or the narration ending, new
    assets), starting from the initial state, the current index stays in
    bounds whenever there are assets, so [currentAsset] is defined and the
    media area is shown. *)
Theorem preview_index_in_bounds (l : list Asset) (evs : list PreviewEvent) (p : Preview) :
  preview_run (preview_init l) evs = Some p ->
  pv_assets p <> [] ->
  (currentAssetIndex p < List.length (pv_assets p))%nat /\
  exists a, currentAsset p = Some a.
Proof.
  intros Hr Hne.
  assert (H0 : preview_inv (preview_init l)).
  { unfold preview_inv, preview_init. simpl. destruct l; [left; reflexivity|right; simpl; lia]. }
  destruct (preview_run_inv _ _ _ H0 Hr) as [He|Hlt]; [contradiction|].
  split; [exact Hlt|]. unfold currentAsset.
  destruct (nth_error (pv_assets p) (currentAssetIndex p)) as [a|] eqn:E; [eauto|].
  apply nth_error_None in E. lia.
Qed.

(** X9.  While the preview plays a list of images, each 5-second tick of
    the slideshow advances the index by one modulo the number of assets:
    after [k] ticks from index [i] it is [(i + k) mod n]. *)
Theorem slideshow_ticks_cycle (l : list Asset) (i k : nat) :
  Forall (fun a => asset_type a = image) l ->
  (i < List.length l)%nat ->
  preview_run (mkPreview l true i) (repeat SlideshowTick k)
  = Some (mkPreview l true (Nat.modulo (i + k) (List.length l))).
Proof.
  intros Himg. revert i. induction k as [|k IH]; intros i Hi; simpl.
  - rewrite Nat.add_0_r, Nat.mod_small by exact Hi. reflexivity.
  - unfold currentAsset. simpl.
    destruct (nth_error l i) as [a|] eqn:E; [|apply nth_error_None in E; lia].
    replace (0 <? List.length l)%nat with true by (symmetry; apply Nat.ltb_lt; lia).
    rewrite Forall_forall in Himg. rewrite (Himg a (nth_error_In _ _ E)). simpl.
    rewrite IH by (apply Nat.mod_upper_bound; lia).
    rewrite Nat.Div0.add_mod_idemp_l. do 3 f_equal. lia.
Qed.

(** ** File names *)

Lemma download_unit_safe (u : N) :
  safe_lower_unit
    ((fun u => if ((65 <=? u) && (u <=? 90))%N then (u + 32)%N else u)
       ((fun u => if is_ascii_alnum u then u else 95%N) u)) = true.
Proof.
  unfold is_ascii_alnum, safe_lower_unit. cbv beta.
  repeat match goal with
  | |- context [(?a <=? u)%N] => destruct (N.leb_spec a u); simpl
  | |- context [(u <=? ?b)%N] => destruct (N.leb_spec u b); simpl
  end;
  repeat match goal with
  | |- context [(?a <=? ?b)%N] => destruct (N.leb_spec a b); simpl
  | |- context [(?a =? ?b)%N] => destruct (N.eqb_spec a b); simpl
  end; simpl; try reflexivity; lia.
Qed.

Lemma download_unit_fixed (u : N) :
  safe_lower_unit u = true ->
  (fun u => if ((65 <=? u) && (u <=? 90))%N then (u + 32)%N else u)
    ((fun u => if is_ascii_alnum u then u else 95%N) u) = u.
Proof.
  unfold is_ascii_alnum, safe_lower_unit. cbv beta.
  repeat match goal with
  | |- context [(?a <=? u)%N] => destruct (N.leb_spec a u); simpl
  | |- context [(u <=? ?b)%N] => destruct (N.leb_spec u b); simpl
  end;
  repeat match goal with
  | |- context [(?a <=? ?b)%N] => destruct (N.leb_spec a b); simpl
  | |- context [(?a =? ?b)%N] => destruct (N.eqb_spec a b); simpl
  end; simpl; intro Hsafe; try reflexivity; try discriminate; lia.
Qed.

(** X10.  The download name's stem has exactly one code unit per code unit
    of the title (of ['news_video'] when the title is empty), and every
    one is a lower-case ASCII letter, a digit or ['_']: no path separator,
    dot, space, upper-case or non-ASCII unit survives. *)
Theorem download_stem_safe (title : JSString) :
  Forall (fun u => safe_lower_unit u = true) (download_stem title) /\
  List.length (download_stem title)
  = List.length (js_or title (js_of_string "news_video")) /\
  download_filename title = download_stem title ++ js_of_string ".webm".
Proof.
  unfold download_stem, toLowerCase_ascii, replace_non_alnum.
  split; [|split; [rewrite !length_map; reflexivity|reflexivity]].
  rewrite map_map. apply Forall_forall. intros u Hu.
  apply in_map_iff in Hu as (v & <- & _). apply download_unit_safe.
Qed.

(** X11.  A non-empty title already made of [0-9], [a-z] and ['_'] is its
    own download stem, so the sanitising is idempotent. *)
Theorem download_stem_fixed (title : JSString) :
  title <> [] ->
  Forall (fun u => safe_lower_unit u = true) title ->
  download_stem title = title.
Proof.
  intros Hne Hs. unfold download_stem, toLowerCase_ascii, replace_non_alnum.
  replace (js_or title (js_of_string "news_video")) with title
    by (destruct title; [contradiction|reflexivity]).
  rewrite map_map. rewrite <- (map_id title) at 2. apply map_ext_in.
  intros u Hu. rewrite Forall_forall in Hs. apply download_unit_fixed. exact (Hs u Hu).
Qed.

(** ** Download and publish *)

Lemma task_eqb_eq t u : task_eqb t u = true -> t = u.
Proof.
  destruct t as [g|g c|], u as [g'|g' c'|]; simpl; try discriminate; intro H.
  - apply Nat.eqb_eq in H. now subst.
  - apply andb_true_iff in H as [H1 H2]. apply Nat.eqb_eq in H1.
    apply Bool.eqb_prop in H2. now subst.
  - reflexivity.
Qed.

Lemma in_remove_task x t l : In x (remove_task t l) -> In x l.
Proof.
  induction l as [|u r IH]; simpl; [tauto|].
  destruct (task_eqb t u); simpl; [tauto|].
  intros [H|H]; [left; exact H|right; exact (IH H)].
Qed.

Lemma filter_remove_le f t l :
  (List.length (filter f (remove_task t l)) <= List.length (filter f l))%nat.
Proof.
  induction l as [|u r IH]; simpl; [lia|].
  destruct (task_eqb t u); simpl; destruct (f u); simpl; lia.
Qed.

Lemma filter_remove_hit f t l :
  existsb (task_eqb t) l = true -> f t = true ->
  S (List.length (filter f (remove_task t l))) = List.length (filter f l).
Proof.
  induction l as [|u r IH]; simpl; [discriminate|].
  destruct (task_eqb t u) eqn:E; simpl.
  - intros _ Hf. apply task_eqb_eq in E. subst u. rewrite Hf. reflexivity.
  - intros Hx Hf. destruct (f u); simpl; rewrite (IH Hx Hf); reflexivity.
Qed.

Lemma existsb_filter_nil (f : Task -> bool) l : existsb f l = false <-> filter f l = [].
Proof.
  induction l as [|u r IH]; simpl; [tauto|].
  destruct (f u); simpl; [split; intro H; discriminate H|exact IH].
Qed.

Lemma existsb_remove f t l : existsb f (remove_task t l) = true -> existsb f l = true.
Proof.
  rewrite !existsb_exists. intros (x & Hx & Hf).
  exists x. split; [exact (in_remove_task _ _ _ Hx)|exact Hf].
Qed.

Lemma existsb_upload g l :
  existsb (is_render_of g) (l ++ [UploadTask]) = existsb (is_render_of g) l.
Proof. rewrite existsb_app. simpl. apply orb_false_r. Qed.

Lemma filter_upload g l :
  filter (is_render_of g) (l ++ [UploadTask]) = filter (is_render_of g) l.
Proof. rewrite filter_app. simpl. apply app_nil_r. Qed.

Lemma mounted_fields st st' :
  appState st' = appState st -> currentView st' = currentView st ->
  monitor_mounted st' = monitor_mounted st.
Proof. intros Ha Hv. unfold monitor_mounted. now rewrite Ha, Hv. Qed.

Lemma buttons_enabled_spec st :
  action_buttons_enabled st = true ->
  monitor_mounted st = true /\ isProcessingVideo st = false.
Proof.
  unfold action_buttons_enabled. intro H. apply andb_true_iff in H as [Hm H].
  split; [exact Hm|]. destruct (appState st); try discriminate H;
    apply negb_true_iff in H; exact H.
Qed.

Lemma rerender_spec before after :
  (rerender before after = after /\
   (monitor_mounted after = true -> monitor_mounted before = true)) \/
  rerender before after =
    mkStudio (appState after) (currentView after) (isChannelModalOpen after)
             (connectedChannel after) (S (monitor_gen after)) false (pending after).
Proof.
  unfold rerender.
  destruct (monitor_mounted before), (monitor_mounted after); simpl; auto.
Qed.

Lemma rerender_gen before after :
  (monitor_gen after <= monitor_gen (rerender before after))%nat.
Proof. destruct (rerender_spec before after) as [[-> _]| ->]; simpl; lia. Qed.

Lemma rerender_keep before after :
  monitor_gen (rerender before after) = monitor_gen after ->
  rerender before after = after /\
  (monitor_mounted after = true -> monitor_mounted before = true).
Proof.
  destruct (rerender_spec before after) as [H| ->]; [intros _; exact H|].
  simpl. lia.
Qed.

Lemma set_processing_from_gen g b st :
  monitor_gen (set_processing_from g b st) = monitor_gen st.
Proof. unfold set_processing_from. destruct (_ && _); reflexivity. Qed.

Lemma gens_bump g l :
  Forall (fun t => (task_gen t <= g)%nat) l ->
  filter (is_render_of (S g)) l = [].
Proof.
  induction 1 as [|t r Ht Hr IH]; simpl; [reflexivity|].
  assert (Hf : is_render_of (S g) t = false).
  { destruct t as [g'|g' c|]; cbn [task_gen is_render_of] in *; [| |reflexivity];
      apply Nat.eqb_neq; lia. }
  rewrite Hf. exact IH.
Qed.

(** *** The invariant of the reachable states *)

Lemma inv_rerender before after :
  Forall (fun t => (task_gen t <= monitor_gen after)%nat) (pending after) ->
  (monitor_mounted before = true -> monitor_mounted after = true ->
   (List.length (filter (is_render_of (monitor_gen after)) (pending after)) <= 1)%nat /\
   (isProcessingVideo after = false ->
    existsb (is_render_of (monitor_gen after)) (pending after) = false)) ->
  studio_inv (rerender before after).
Proof.
  intros HF Hm.
  destruct (rerender_spec before after) as [[-> Hma]| ->].
  - split; [exact HF|]. intro H. exact (Hm (Hma H) H).
  - unfold studio_inv. simpl. pose proof (gens_bump _ _ HF) as Hf.
    split.
    + eapply Forall_impl; [|exact HF]. simpl. intros t Ht. lia.
    + intros _. rewrite Hf. split; [simpl; lia|]. intros _.
      apply existsb_filter_nil. exact Hf.
Qed.

Lemma inv_remove st t :
  studio_inv st -> studio_inv (with_pending st (remove_task t (pending st))).
Proof.
  intros [HF Hm]. split.
  - cbn [pending with_pending monitor_gen]. rewrite Forall_forall in *.
    intros x Hx. exact (HF x (in_remove_task _ _ _ Hx)).
  - intro Hmt. rewrite (mounted_fields st) in Hmt by reflexivity.
    destruct (Hm Hmt) as [H1 H2].
    cbn [pending with_pending monitor_gen isProcessingVideo]. split.
    + eapply Nat.le_trans; [apply filter_remove_le|exact H1].
    + intro Hp. specialize (H2 Hp).
      destruct (existsb _ (remove_task t (pending st))) eqn:E; [|reflexivity].
      apply existsb_remove in E. congruence.
Qed.

(** A continuation of instance [g] settles and calls
    [setIsProcessingVideo(false)]. *)
Lemma inv_settle st t g :
  studio_inv st -> existsb (task_eqb t) (pending st) = true ->
  (forall n, is_render_of n t = Nat.eqb n g) ->
  studio_inv (set_processing_from g false (with_pending st (remove_task t (pending st)))).
Proof.
  intros Hi Hx Ht. pose proof (inv_remove st t Hi) as Hi1.
  unfold set_processing_from.
  destruct (monitor_mounted (with_pending st (remove_task t (pending st)))
            && Nat.eqb g (monitor_gen (with_pending st (remove_task t (pending st)))))
    eqn:E; [|exact Hi1].
  apply andb_true_iff in E as [Hm Hg]. apply Nat.eqb_eq in Hg.
  cbn [monitor_gen with_pending] in Hg. subst g.
  rewrite (mounted_fields st) in Hm by reflexivity.
  destruct Hi as [HF Hmi]. destruct (Hmi Hm) as [H1 _].
  pose proof (filter_remove_hit (is_render_of (monitor_gen st)) t (pending st) Hx)
    as Hh.
  rewrite Ht, Nat.eqb_refl in Hh. specialize (Hh eq_refl).
  destruct Hi1 as [HF1 _]. split; [exact HF1|].
  intros _. cbn [pending with_pending with_processing monitor_gen isProcessingVideo].
  split; [lia|]. intros _. apply existsb_filter_nil.
  apply length_zero_iff_nil. lia.
Qed.

Lemma studio_step_inv st ev st1 :
  studio_inv st -> studio_step st ev = Some st1 -> studio_inv st1.
Proof.
  intros Hi Hs.
  destruct ev as [| |g|g c ok|i loc xhr|sa|v|c]; cbn [studio_step] in Hs.
  - destruct (action_buttons_enabled st) eqn:E; [|discriminate].
    injection Hs as <-. apply buttons_enabled_spec in E as [Hm Hp].
    destruct Hi as [HF Hmi]. destruct (Hmi Hm) as [_ H2].
    apply existsb_filter_nil in H2; [|exact Hp].
    unfold handleDownloadVideo, studio_inv.
    cbn [pending with_pending with_processing monitor_gen isProcessingVideo]. split.
    + apply Forall_app. split; [exact HF|]. constructor; [simpl; lia|constructor].
    + intros _. rewrite filter_app, H2. simpl. rewrite Nat.eqb_refl. simpl.
      split; [lia|]. intro H; discriminate H.
  - destruct (action_buttons_enabled st) eqn:E; [|discriminate].
    injection Hs as <-. apply buttons_enabled_spec in E as [Hm Hp].
    destruct Hi as [HF Hmi]. destruct (Hmi Hm) as [_ H2].
    apply existsb_filter_nil in H2; [|exact Hp].
    unfold handlePublishClick, studio_inv.
    cbn [pending with_pending with_processing monitor_gen isProcessingVideo]. split.
    + apply Forall_app. split; [exact HF|]. constructor; [simpl; lia|constructor].
    + intros _. rewrite filter_app, H2. simpl. rewrite Nat.eqb_refl. simpl.
      split; [lia|]. intro H; discriminate H.
  - destruct (existsb _ (pending st)) eqn:Ex; [|discriminate].
    injection Hs as <-. apply inv_settle; [exact Hi|exact Ex|reflexivity].
  - destruct (existsb _ (pending st)) eqn:Ex; [|discriminate].
    injection Hs as <-. unfold handlePublishClick_settled.
    pose proof (inv_remove st (PublishRender g c) Hi) as Hi1.
    destruct ok.
    + unfold handlePublish. destruct c; simpl negb; cbv iota; [|exact Hi1].
      destruct Hi1 as [HF1 Hm1]. apply inv_rerender.
      * cbn [pending with_pending with_appState monitor_gen].
        apply Forall_app. split; [exact HF1|]. constructor; [simpl; lia|constructor].
      * intros Hb _. cbn [pending with_pending with_appState monitor_gen isProcessingVideo].
        rewrite filter_upload, existsb_upload. exact (Hm1 Hb).
    + apply inv_settle; [exact Hi|exact Ex|reflexivity].
  - destruct (existsb _ (pending st)) eqn:Ex; [|discriminate].
    pose proof (inv_remove st UploadTask Hi) as [HF1 Hm1].
    unfold handlePublish_settled in Hs.
    destruct (uploadVideoToYouTube i loc xhr); [| |discriminate];
      injection Hs as <-; apply inv_rerender;
      [exact HF1|intros Hb _; exact (Hm1 Hb)|exact HF1|intros Hb _; exact (Hm1 Hb)].
  - injection Hs as <-. destruct Hi as [HF Hm].
    apply inv_rerender; [exact HF|intros Hb _; exact (Hm Hb)].
  - injection Hs as <-. destruct Hi as [HF Hm].
    apply inv_rerender; [exact HF|intros Hb _; exact (Hm Hb)].
  - injection Hs as <-. exact Hi.
Qed.

Lemma studio_run_inv st evs st' :
  studio_inv st -> studio_run st evs = Some st' -> studio_inv st'.
Proof.
  revert st. induction evs as [|ev evs IH]; simpl; intros st Hi Hr.
  - injection Hr as <-. exact Hi.
  - destruct (studio_step st ev) as [st1|] eqn:E; [|discriminate].
    exact (IH st1 (studio_step_inv st ev st1 Hi E) Hr).
Qed.

Lemma studio_init_inv : studio_inv studio_init.
Proof. split; [constructor|]. intro H. discriminate H. Qed.

(** *** A busy instance stays busy *)

Lemma studio_step_gen st ev st1 :
  studio_step st ev = Some st1 -> (monitor_gen st <= monitor_gen st1)%nat.
Proof.
  intro Hs. destruct ev as [| |g|g c ok|i loc xhr|sa|v|c]; cbn [studio_step] in Hs.
  - destruct (action_buttons_enabled st); [|discriminate]. injection Hs as <-. simpl; lia.
  - destruct (action_buttons_enabled st); [|discriminate]. injection Hs as <-. simpl; lia.
  - destruct (existsb _ (pending st)); [|discriminate]. injection Hs as <-.
    unfold handleDownloadVideo_settled. rewrite set_processing_from_gen. simpl; lia.
  - destruct (existsb _ (pending st)); [|discriminate]. injection Hs as <-.
    unfold handlePublishClick_settled. destruct ok.
    + unfold handlePublish. destruct c; simpl negb; cbv iota; [|simpl; lia].
      eapply Nat.le_trans; [|apply rerender_gen]. simpl; lia.
    + rewrite set_processing_from_gen. simpl; lia.
  - destruct (existsb _ (pending st)); [|discriminate].
    unfold handlePublish_settled in Hs.
    destruct (uploadVideoToYouTube i loc xhr); [| |discriminate];
      injection Hs as <-; (eapply Nat.le_trans; [|apply rerender_gen]); simpl; lia.
  - injection Hs as <-. eapply Nat.le_trans; [|apply rerender_gen]. simpl; lia.
  - injection Hs as <-. eapply Nat.le_trans; [|apply rerender_gen]. simpl; lia.
  - injection Hs as <-. simpl; lia.
Qed.

Lemma studio_run_gen st evs st' :
  studio_run st evs = Some st' -> (monitor_gen st <= monitor_gen st')%nat.
Proof.
  revert st. induction evs as [|ev evs IH]; simpl; intros st Hr.
  - injection Hr as <-. lia.
  - destruct (studio_step st ev) as [st1|] eqn:E; [|discriminate].
    pose proof (studio_step_gen _ _ _ E). pose proof (IH _ Hr). lia.
Qed.

Lemma locked_remove st t :
  studio_locked st -> studio_locked (with_pending st (remove_task t (pending st))).
Proof.
  intros [Hp Hx]. split; [exact Hp|]. cbn [pending with_pending monitor_gen].
  destruct (existsb _ (remove_task t (pending st))) eqn:E; [|reflexivity].
  apply existsb_remove in E. congruence.
Qed.

Lemma lock_settle st t g :
  (monitor_mounted st = true -> studio_locked st) ->
  existsb (task_eqb t) (pending st) = true ->
  (forall n, is_render_of n t = Nat.eqb n g) ->
  monitor_mounted (set_processing_from g false
                     (with_pending st (remove_task t (pending st)))) = true ->
  studio_locked (set_processing_from g false (with_pending st (remove_task t (pending st)))).
Proof.
  intros Hl Hx Ht Hm. unfold set_processing_from in *.
  assert (Hms : monitor_mounted st = true).
  { destruct (_ && _); rewrite <- Hm; apply mounted_fields; reflexivity. }
  pose proof (Hl Hms) as [Hp Hn].
  destruct (monitor_mounted (with_pending st (remove_task t (pending st)))
            && Nat.eqb g (monitor_gen (with_pending st (remove_task t (pending st)))))
    eqn:E.
  - exfalso. apply andb_true_iff in E as [_ Hg]. apply Nat.eqb_eq in Hg.
    cbn [monitor_gen with_pending] in Hg. subst g.
    apply existsb_exists in Hx as (x & Hin & Heq). apply task_eqb_eq in Heq. subst x.
    assert (Hc : existsb (is_render_of (monitor_gen st)) (pending st) = true).
    { apply existsb_exists. exists t. split; [exact Hin|]. rewrite Ht. apply Nat.eqb_refl. }
    congruence.
  - apply locked_remove. split; assumption.
Qed.

Lemma lock_step st ev st1 :
  (monitor_mounted st = true -> studio_locked st) ->
  studio_step st ev = Some st1 ->
  monitor_gen st1 = monitor_gen st ->
  monitor_mounted st1 = true -> studio_locked st1.
Proof.
  intros Hl Hs Hg Hm1.
  destruct ev as [| |g|g c ok|i loc xhr|sa|v|c]; cbn [studio_step] in Hs.
  - destruct (action_buttons_enabled st) eqn:E; [|discriminate].
    apply buttons_enabled_spec in E as [Hm Hp]. destruct (Hl Hm) as [Hp' _]. congruence.
  - destruct (action_buttons_enabled st) eqn:E; [|discriminate].
    apply buttons_enabled_spec in E as [Hm Hp]. destruct (Hl Hm) as [Hp' _]. congruence.
  - destruct (existsb _ (pending st)) eqn:Ex; [|discriminate].
    injection Hs as <-. apply lock_settle; [exact Hl|exact Ex|reflexivity|exact Hm1].
  - destruct (existsb _ (pending st)) eqn:Ex; [|discriminate].
    injection Hs as <-. unfold handlePublishClick_settled in *.
    destruct ok; [|apply lock_settle; [exact Hl|exact Ex|reflexivity|exact Hm1]].
    unfold handlePublish in *. destruct c; simpl negb in *; cbv iota in *.
    + destruct (rerender_keep _ _ Hg) as [He Hmb]. rewrite He in Hm1 |- *.
      specialize (Hmb Hm1). rewrite (mounted_fields st) in Hmb by reflexivity.
      destruct (locked_remove st (PublishRender g true) (Hl Hmb)) as [Hp Hn].
      split; [exact Hp|]. cbn [pending with_pending with_appState monitor_gen] in *.
      rewrite existsb_upload. exact Hn.
    + rewrite (mounted_fields st) in Hm1 by reflexivity.
      exact (locked_remove st (PublishRender g false) (Hl Hm1)).
  - destruct (existsb _ (pending st)) eqn:Ex; [|discriminate].
    unfold handlePublish_settled in Hs.
    destruct (uploadVideoToYouTube i loc xhr); [| |discriminate];
      injection Hs as <-; destruct (rerender_keep _ _ Hg) as [He Hmb]; rewrite He in Hm1 |- *;
      specialize (Hmb Hm1); rewrite (mounted_fields st) in Hmb by reflexivity;
      exact (locked_remove st UploadTask (Hl Hmb)).
  - injection Hs as <-. destruct (rerender_keep _ _ Hg) as [He Hmb]. rewrite He in Hm1 |- *.
    specialize (Hmb Hm1). exact (Hl Hmb).
  - injection Hs as <-. destruct (rerender_keep _ _ Hg) as [He Hmb]. rewrite He in Hm1 |- *.
    specialize (Hmb Hm1). exact (Hl Hmb).
  - injection Hs as <-. rewrite (mounted_fields st) in Hm1 by reflexivity.
    exact (Hl Hm1).
Qed.

Lemma lock_run st evs st' :
  (monitor_mounted st = true -> studio_locked st) ->
  studio_run st evs = Some st' ->
  (monitor_gen st < monitor_gen st')%nat \/
  (monitor_gen st' = monitor_gen st /\ (monitor_mounted st' = true -> studio_locked st')).
Proof.
  revert st. induction evs as [|ev evs IH]; simpl; intros st Hl Hr.
  - injection Hr as <-. right. split; [reflexivity|exact Hl].
  - destruct (studio_step st ev) as [st1|] eqn:E; [|discriminate].
    pose proof (studio_step_gen _ _ _ E) as Hge.
    destruct (Nat.eq_dec (monitor_gen st1) (monitor_gen st)) as [Heq|Hne].
    + assert (Hl1 : monitor_mounted st1 = true -> studio_locked st1)
        by (intro Hm1; exact (lock_step st ev st1 Hl E Heq Hm1)).
      destruct (IH st1 Hl1 Hr) as [Hlt|[He Hp]]; [left; lia|right].
      split; [congruence|exact Hp].
    + left. pose proof (studio_run_gen _ _ _ Hr). lia.
Qed.

(** X14.  In any reachable state, when the render of a publish click made
    by the mounted monitor resolves, the monitor stays mounted (the App
    moves to [PUBLISHING], or opens the channel dialog when no channel
    is connected) and its [isProcessingVideo] stays [true] with no render
    of its own left pending, so nothing in it will clear the flag; the
    Download and Publish buttons are disabled. *)
Theorem publish_render_resolved_locks (evs : list StudioEvent) (st st' : Studio)
    (c : bool) :
  studio_run studio_init evs = Some st ->
  monitor_mounted st = true ->
  In (PublishRender (monitor_gen st) c) (pending st) ->
  studio_step st (PublishRenderSettled (monitor_gen st) c true) = Some st' ->
  monitor_mounted st' = true /\ monitor_gen st' = monitor_gen st /\
  isProcessingVideo st' = true /\ action_buttons_enabled st' = false /\
  existsb (is_render_of (monitor_gen st')) (pending st') = false.
Proof.
  intros Hr Hm Hin Hs.
  destruct (studio_run_inv _ _ _ studio_init_inv Hr) as [HF Hmi].
  destruct (Hmi Hm) as [H1 H2].
  assert (Hx : existsb (task_eqb (PublishRender (monitor_gen st) c)) (pending st) = true).
  { apply existsb_exists. exists (PublishRender (monitor_gen st) c).
    split; [exact Hin|]. simpl. now rewrite Nat.eqb_refl, Bool.eqb_reflx. }
  assert (Hp : isProcessingVideo st = true).
  { destruct (isProcessingVideo st) eqn:E; [reflexivity|].
    specialize (H2 eq_refl). apply existsb_filter_nil in H2.
    pose proof (filter_remove_hit (is_render_of (monitor_gen st)) _ _ Hx) as Hh.
    simpl in Hh. rewrite Nat.eqb_refl, H2 in Hh. specialize (Hh eq_refl). discriminate. }
  assert (Hn : existsb (is_render_of (monitor_gen st))
                 (remove_task (PublishRender (monitor_gen st) c) (pending st)) = false).
  { apply existsb_filter_nil. apply length_zero_iff_nil.
    pose proof (filter_remove_hit (is_render_of (monitor_gen st)) _ _ Hx) as Hh.
    simpl in Hh. rewrite Nat.eqb_refl in Hh. specialize (Hh eq_refl). lia. }
  cbn [studio_step] in Hs. rewrite Hx in Hs. injection Hs as <-.
  unfold handlePublishClick_settled, handlePublish.
  assert (Hoff : forall st2, isProcessingVideo st2 = true -> action_buttons_enabled st2 = false).
  { intros st2 H. unfold action_buttons_enabled. rewrite H.
    destruct (monitor_mounted st2), (appState st2); reflexivity. }
  destruct c; simpl negb; cbv iota.
  - unfold rerender.
    replace (monitor_mounted (with_pending st (remove_task (PublishRender (monitor_gen st) true)
                                                 (pending st)))) with true
      by (rewrite <- Hm; symmetry; apply mounted_fields; reflexivity).
    simpl andb. cbv iota.
    assert (Hv : currentView st = Dashboard)
      by (unfold monitor_mounted in Hm; destruct (currentView st); [reflexivity|discriminate]).
    split; [unfold monitor_mounted; cbn [currentView appState with_pending with_appState];
            now rewrite Hv|].
    split; [reflexivity|]. split; [exact Hp|]. split; [apply Hoff; exact Hp|].
    cbn [pending with_pending with_appState monitor_gen]. rewrite existsb_upload. exact Hn.
  - split; [rewrite <- Hm; apply mounted_fields; reflexivity|].
    split; [reflexivity|]. split; [exact Hp|]. split; [apply Hoff; exact Hp|].
    exact Hn.
Qed.

(** X15.  Once the mounted monitor is busy ([isProcessingVideo] true)
    with no render of its own pending, then after any events (renders and
    uploads settling, the upload failing back to [READY_TO_PUBLISH], any
    other app-state, view or channel change), as long as that same
    instance is mounted, [isProcessingVideo] is still [true] and the
    Download and Publish clicks are refused: only unmounting it (Start
    Over, fetching news, the archive view) and mounting a new one gives
    the buttons back. *)
Theorem lock_holds_while_mounted (st : Studio) (evs : list StudioEvent) (st' : Studio) :
  monitor_mounted st = true -> isProcessingVideo st = true ->
  existsb (is_render_of (monitor_gen st)) (pending st) = false ->
  studio_run st evs = Some st' ->
  monitor_mounted st' = true -> monitor_gen st' = monitor_gen st ->
  isProcessingVideo st' = true /\ action_buttons_enabled st' = false /\
  studio_step st' ClickDownload = None /\ studio_step st' ClickPublish = None.
Proof.
  intros Hm Hp Hn Hr Hm' Hg.
  assert (Hl : monitor_mounted st = true -> studio_locked st) by (intros _; split; assumption).
  destruct (lock_run st evs st' Hl Hr) as [Hlt|[_ Hl']]; [lia|].
  destruct (Hl' Hm') as [Hp' _].
  assert (Hoff : action_buttons_enabled st' = false).
  { unfold action_buttons_enabled. rewrite Hp'.
    destruct (monitor_mounted st'), (appState st'); reflexivity. }
  split; [exact Hp'|]. split; [exact Hoff|].
  cbn [studio_step]. rewrite Hoff. split; reflexivity.
Qed.

(** ** Witnesses of the further properties *)

Lemma timeline_segment_binding_witness :
  build_timeline [img1; vid1] [img1_el; vid1_el] 12 = Some demo_tl /\
  forall k s, nth_error demo_tl k = Some s ->
    seg_assetIndex s = k /\
    exists a,
      nth_error [img1; vid1] (Nat.modulo k (List.length [img1; vid1])) = Some a /\
      nth_error [img1_el; vid1_el] (Nat.modulo k (List.length [img1_el; vid1_el]))
        = Some (seg_element s) /\
      seg_type s = asset_type a /\
      seg_duration s = occurrence_duration a (seg_element s).
Proof.
  assert (Hb : build_timeline [img1; vid1] [img1_el; vid1_el] 12 = Some demo_tl)
    by (vm_compute; reflexivity).
  split; [exact Hb|]. exact (timeline_segment_binding _ _ _ _ Hb).
Defined.

Lemma all_images_segment_count_witness :
  [img1; img1] <> [] /\
  List.length [img1_el; img1_el] = List.length [img1; img1] /\
  Forall element_wf [img1_el; img1_el] /\
  Forall (fun a => asset_type a = image) [img1; img1] /\ 0 < 12 /\
  exists tl,
    build_timeline [img1; img1] [img1_el; img1_el] 12 = Some tl /\
    List.length tl = Z.to_nat (Qceiling (12 / 5)) /\
    forall k s, nth_error tl k = Some s ->
      seg_start s == 5 * inject_Z (Z.of_nat k) /\ seg_duration s = 5.
Proof.
  assert (Hwf : Forall element_wf [img1_el; img1_el]) by demo_wf.
  assert (Himg : Forall (fun a => asset_type a = image) [img1; img1])
    by (repeat constructor).
  split; [discriminate|]. split; [reflexivity|]. split; [exact Hwf|].
  split; [exact Himg|]. split; [reflexivity|].
  apply all_images_segment_count;
    [discriminate|reflexivity|exact Hwf|exact Himg|reflexivity].
Defined.

Lemma timeline_overshoot_bounded_witness :
  [img1; vid1] <> [] /\
  List.length [img1_el; vid1_el] = List.length [img1; vid1] /\
  Forall element_wf [img1_el; vid1_el] /\ 0 < 12 /\
  exists tl,
    build_timeline [img1; vid1] [img1_el; vid1_el] 12 = Some tl /\
    (forall s, In s tl -> seg_start s < 12) /\
    exists sl, last_item tl = Some sl /\
      12 <= seg_end sl /\ seg_end sl < 12 + seg_duration sl.
Proof.
  assert (Hwf : Forall element_wf [img1_el; vid1_el]) by demo_wf.
  split; [discriminate|]. split; [reflexivity|]. split; [exact Hwf|].
  split; [reflexivity|].
  apply timeline_overshoot_bounded; [discriminate|reflexivity|exact Hwf|reflexivity].
Defined.

Lemma find_active_fallback_last_witness :
  [img1; vid1] <> [] /\
  List.length [img1_el; vid1_el] = List.length [img1; vid1] /\
  Forall element_wf [img1_el; vid1_el] /\
  exists tl,
    build_timeline [img1; vid1] [img1_el; vid1_el] 12 = Some tl /\
    forall t sl, last_item tl = Some sl -> t < 0 \/ seg_end sl <= t ->
      find (is_active t) tl = None /\ find_active tl t = Some sl.
Proof.
  assert (Hwf : Forall element_wf [img1_el; vid1_el]) by demo_wf.
  split; [discriminate|]. split; [reflexivity|]. split; [exact Hwf|].
  apply find_active_fallback_last; [discriminate|reflexivity|exact Hwf].
Defined.

Lemma pass_rejection_cases_witness :
  snd (renderVideoBlob demo_content demo_browser_err) = Rejected RecorderFailed /\
  ((fst (renderVideoBlob demo_content demo_browser_err) = [] /\
    RecorderFailed <> RecorderFailed /\ RecorderFailed <> TimelineTypeError) \/
   (RecorderFailed = RecorderFailed /\
    exists pre post, fst (renderVideoBlob demo_content demo_browser_err)
                       = pre ++ RecorderError :: post /\
      In RecorderStart pre /\ ~ In RecorderStop pre)).
Proof.
  assert (H : snd (renderVideoBlob demo_content demo_browser_err) = Rejected RecorderFailed)
    by (vm_compute; reflexivity).
  split; [exact H|]. exact (pass_rejection_cases _ _ _ H).
Defined.

Lemma pass_frames_follow_clock_witness :
  audioUrl demo_content = Some "blob:audio"%string /\ "blob:audio"%string <> ""%string /\
  assets demo_content <> [] /\ canvas_context_ok (demo_browser demo_chunks) = true /\
  load_all (demo_browser demo_chunks) (assets demo_content) = Some [img1_el] /\
  Forall element_wf [img1_el] /\
  decode_audio (demo_browser demo_chunks) "blob:audio"%string = Some 10 /\ 0 < 10 /\
  clock (demo_browser demo_chunks) = [0; 5] ++ 10 :: [] /\
  Forall (fun r => r < 10) [0; 5] /\ 10 <= 10 /\
  recorder_ok (demo_browser demo_chunks) = true /\
  match recorder_error (demo_browser demo_chunks) with
  | Some k => (List.length [0; 5] <= k)%nat | None => True end /\
  let W := match aspectRatio demo_content with AR_9_16 => 1080%Z | AR_16_9 => 1920%Z end in
  let H := match aspectRatio demo_content with AR_9_16 => 1920%Z | AR_16_9 => 1080%Z end in
  exists tl,
    build_timeline (assets demo_content) [img1_el] 10 = Some tl /\
    renderVideoBlob demo_content (demo_browser demo_chunks) =
      ([RecorderStart; AudioStart; TimelineBuilt tl] ++
       map (fun r => Frame (render_frame tl r W H)) [0; 5] ++ [RecorderStop],
       Resolved (onstop_blob (recorded (demo_browser demo_chunks)))) /\
    forall r, In r [0; 5] ->
      exists ops, render_frame tl r W H = FillRect "#000000" 0 0 W H :: ops.
Proof.
  assert (Hwf : Forall element_wf [img1_el]) by demo_wf.
  assert (Hpre : Forall (fun r => r < 10) [0; 5]) by (repeat constructor).
  assert (Hle : 10 <= 10) by apply Qle_refl.
  split; [reflexivity|]. split; [discriminate|]. split; [discriminate|].
  split; [reflexivity|]. split; [reflexivity|]. split; [exact Hwf|].
  split; [reflexivity|]. split; [reflexivity|]. split; [reflexivity|].
  split; [exact Hpre|]. split; [exact Hle|].
  split; [reflexivity|]. split; [exact I|].
  apply (pass_frames_follow_clock demo_content (demo_browser demo_chunks)
           "blob:audio"%string [img1_el] 10 [0; 5] 10 []);
    [reflexivity|discriminate|discriminate|reflexivity|reflexivity|exact Hwf
    |reflexivity|reflexivity|reflexivity|exact Hpre|exact Hle|reflexivity|exact I].
Defined.

Lemma preview_index_in_bounds_witness :
  preview_run (preview_init [img1; vid1])
    [TogglePreview; SlideshowTick; VideoAssetEnded; SelectAsset 1]
  = Some (mkPreview [img1; vid1] true 1) /\
  pv_assets (mkPreview [img1; vid1] true 1) <> [] /\
  (currentAssetIndex (mkPreview [img1; vid1] true 1)
   < List.length (pv_assets (mkPreview [img1; vid1] true 1)))%nat /\
  exists a, currentAsset (mkPreview [img1; vid1] true 1) = Some a.
Proof.
  assert (Hr : preview_run (preview_init [img1; vid1])
                 [TogglePreview; SlideshowTick; VideoAssetEnded; SelectAsset 1]
               = Some (mkPreview [img1; vid1] true 1)) by reflexivity.
  assert (Hne : pv_assets (mkPreview [img1; vid1] true 1) <> []) by discriminate.
  split; [exact Hr|]. split; [exact Hne|].
  exact (preview_index_in_bounds _ _ _ Hr Hne).
Defined.

Lemma slideshow_ticks_cycle_witness :
  Forall (fun a => asset_type a = image) [img1; img1] /\
  (1 < List.length [img1; img1])%nat /\
  preview_run (mkPreview [img1; img1] true 1) (repeat SlideshowTick 3)
  = Some (mkPreview [img1; img1] true (Nat.modulo (1 + 3) (List.length [img1; img1]))).
Proof.
  assert (Himg : Forall (fun a => asset_type a = image) [img1; img1])
    by (repeat constructor).
  assert (Hi : (1 < List.length [img1; img1])%nat) by (apply Nat.ltb_lt; reflexivity).
  split; [exact Himg|]. split; [exact Hi|].
  exact (slideshow_ticks_cycle _ 1 3 Himg Hi).
Defined.

Lemma download_stem_fixed_witness :
  js_of_string "breaking_news_2024" <> [] /\
  Forall (fun u => safe_lower_unit u = true) (js_of_string "breaking_news_2024") /\
  download_stem (js_of_string "breaking_news_2024") = js_of_string "breaking_news_2024".
Proof.
  assert (Hne : js_of_string "breaking_news_2024" <> []) by discriminate.
  assert (Hs : Forall (fun u => safe_lower_unit u = true)
                 (js_of_string "breaking_news_2024")) by (repeat constructor).
  split; [exact Hne|]. split; [exact Hs|].
  exact (download_stem_fixed _ Hne Hs).
Defined.


Lemma publish_render_resolved_locks_witness :
  studio_run studio_init [SetAppState READY_TO_PUBLISH; SetChannel true; ClickPublish]
    = Some (mkStudio READY_TO_PUBLISH Dashboard false true 1 true [PublishRender 1 true]) /\
  monitor_mounted (mkStudio READY_TO_PUBLISH Dashboard false true 1 true
                     [PublishRender 1 true]) = true /\
  studio_step (mkStudio READY_TO_PUBLISH Dashboard false true 1 true [PublishRender 1 true])
    (PublishRenderSettled 1 true true)
    = Some (mkStudio PUBLISHING Dashboard false true 1 true [UploadTask]) /\
  isProcessingVideo (mkStudio PUBLISHING Dashboard false true 1 true [UploadTask]) = true /\
  action_buttons_enabled (mkStudio PUBLISHING Dashboard false true 1 true [UploadTask])
    = false.
Proof.
  assert (Hr : studio_run studio_init
                 [SetAppState READY_TO_PUBLISH; SetChannel true; ClickPublish]
               = Some (mkStudio READY_TO_PUBLISH Dashboard false true 1 true
                         [PublishRender 1 true])) by (vm_compute; reflexivity).
  assert (Hm : monitor_mounted (mkStudio READY_TO_PUBLISH Dashboard false true 1 true
                                  [PublishRender 1 true]) = true) by reflexivity.
  assert (Hin : In (PublishRender 1 true) [PublishRender 1 true]) by (left; reflexivity).
  assert (Hs : studio_step (mkStudio READY_TO_PUBLISH Dashboard false true 1 true
                              [PublishRender 1 true]) (PublishRenderSettled 1 true true)
               = Some (mkStudio PUBLISHING Dashboard false true 1 true [UploadTask]))
    by (vm_compute; reflexivity).
  destruct (publish_render_resolved_locks _ _ _ true Hr Hm Hin Hs)
    as (_ & _ & Hp & Hoff & _).
  split; [exact Hr|]. split; [exact Hm|]. split; [exact Hs|].
  split; [exact Hp|exact Hoff].
Defined.

Lemma lock_holds_while_mounted_witness :
  studio_run (mkStudio PUBLISHING Dashboard false true 1 true [UploadTask])
    [UploadSettled false None XhrError]
    = Some (mkStudio READY_TO_PUBLISH Dashboard false true 1 true []) /\
  isProcessingVideo (mkStudio READY_TO_PUBLISH Dashboard false true 1 true []) = true /\
  action_buttons_enabled (mkStudio READY_TO_PUBLISH Dashboard false true 1 true []) = false /\
  studio_step (mkStudio READY_TO_PUBLISH Dashboard false true 1 true []) ClickDownload = None /\
  studio_step (mkStudio READY_TO_PUBLISH Dashboard false true 1 true []) ClickPublish = None.
Proof.
  assert (Hr : studio_run (mkStudio PUBLISHING Dashboard false true 1 true [UploadTask])
                 [UploadSettled false None XhrError]
               = Some (mkStudio READY_TO_PUBLISH Dashboard false true 1 true []))
    by (vm_compute; reflexivity).
  split; [exact Hr|].
  refine (lock_holds_while_mounted
            (mkStudio PUBLISHING Dashboard false true 1 true [UploadTask]) _ _
            eq_refl eq_refl eq_refl Hr eq_refl eq_refl).
Defined.
